(** * Bulk content importer of cloud-exam-be: a shallow embedding

    The three import scripts (question topics, question tags, questions)
    read a JSON file, validate each row, optionally look the row up in the
    content store, normalise its rich text and submit a create request.

    Modelling choices, all taken from the scripts:
    - a row is an arbitrary JSON value ([Value]): numbers are the doubles
      [JSON.parse] produces, a string is the list of its UTF-16 code
      units ([text]);
    - a [TypeError] ends the run ([Throw]); the scripts raise one when they
      read a property of [null], call a string or array method on a value
      that has none, or print, inside a template literal, a value that has
      no string conversion (an object with a [toString] field of its own);
    - [String.prototype.toLowerCase] belongs to the engine, not to the
      scripts: it is a parameter of the run ([env_toLowerCase]), like the
      clock and the random source;
    - the content store is the external collaborator: documents are kept
      in lists, [findMany] with an [$eq] filter returns the documents whose
      field equals the filter value, and [create] is whatever the
      environment says ([env_create], [None] when the store throws);
    - [topicsCache] and [tagsCache] are module-level variables of the
      question script: they live in the [World], next to the store.  They
      are plain objects used as maps, so a lookup also sees what the object
      inherits from [Object.prototype], and an assignment to [__proto__]
      replaces the prototype instead of adding a key;
    - console output and store traffic are recorded as a list of [Event]s;
      a message is the template the script prints together with the values
      it interpolates. *)

From Stdlib Require Import ZArith NArith Ascii String List Bool Lia Floats.

From Stdlib Require Import DecimalString DecimalNat.

From stdpp Require Import base option list gmap.

Set Warnings "-register-all,-via-type-mismatch,-via-type-remapping".

Local Open Scope list_scope.

(** * The scripts *)

(** ** Text *)

(** A JavaScript string: the list of its UTF-16 code units. *)
Definition text := list N.

(** Literals: ["name"] is the list of the codes of its characters. *)
Inductive Units : Set :=
| UNil
| UCons (u : N) (rest : Units).

Fixpoint units_of_bytes (b : list Byte.byte) : Units :=
  match b with
  | [] => UNil
  | x :: rest => UCons (N.of_nat (Byte.to_nat x)) (units_of_bytes rest)
  end.

Fixpoint bytes_of_units (t : Units) : option (list Byte.byte) :=
  match t with
  | UNil => Some []
  | UCons u rest =>
      match Byte.of_nat (N.to_nat u), bytes_of_units rest with
      | Some b, Some bs => Some (b :: bs)
      | _, _ => None
      end
  end.

Declare Scope text_scope.

Delimit Scope text_scope with text.

Bind Scope text_scope with text.

String Notation text units_of_bytes bytes_of_units
  (via Units mapping [[nil] => UNil, [cons] => UCons]) : text_scope.

Fixpoint text_eqb (a b : text) : bool :=
  match a, b with
  | [], [] => true
  | x :: a', y :: b' => N.eqb x y && text_eqb a' b'
  | _, _ => false
  end.

(** The code units of a string of the standard library. *)
Definition text_of_string (s : string) : text :=
  map N_of_ascii (list_ascii_of_string s).

(** ** JavaScript values as produced by [JSON.parse] *)

Inductive Value : Type :=
| JUndefined
| JNull
| JBool (b : bool)
| JNum (x : float)
| JStr (s : text)
| JArr (items : list Value)
| JObj (fields : list (text * Value)).

(** [!v] is [negb (truthy v)]: zero and [NaN] are the falsy numbers. *)
Definition truthy (v : Value) : bool :=
  match v with
  | JUndefined | JNull => false
  | JBool b => b
  | JNum x => negb (PrimFloat.eqb x 0 || negb (PrimFloat.eqb x x))
  | JStr s => match s with [] => false | _ => true end
  | JArr _ | JObj _ => true
  end.

(** [Array.isArray(v)] *)
Definition isArray (v : Value) : bool :=
  match v with JArr _ => true | _ => false end.

(** [typeof v === 'string'] *)
Definition isString (v : Value) : bool :=
  match v with JStr _ => true | _ => false end.

(** [a || b] *)
Definition js_or (a b : Value) : Value := if truthy a then a else b.

(** Own property of a parsed object: the last binding of a repeated key
    wins, as in [JSON.parse]. *)
Fixpoint own_property (fields : list (text * Value)) (k : text) : Value :=
  match fields with
  | [] => JUndefined
  | (k', v) :: rest =>
      match own_property rest k with
      | JUndefined => if text_eqb k' k then v else JUndefined
      | found => found
      end
  end.

(** [Object.hasOwn(object, k)] *)
Definition has_own (fields : list (text * Value)) (k : text) : bool :=
  existsb (fun kv => text_eqb (fst kv) k) fields.

(** Whether [`${v}`] yields a string.  An array is joined, its elements
    converted in turn; an object goes through [toString], which is
    [Object.prototype.toString] unless the object has a field of that
    name: a field parsed from JSON is never a function, the fallback
    [valueOf] answers the object itself, and the conversion ends in a
    [TypeError]. *)
Fixpoint renderable (v : Value) : bool :=
  match v with
  | JArr items => forallb renderable items
  | JObj fields => negb (has_own fields "toString")
  | _ => true
  end.

(** ** Rich-text normalisation *)

Definition paragraph (content : text) : Value :=
  JArr [ JObj [ ("type"%text, JStr "paragraph");
                ("children"%text, JArr [ JObj [ ("type"%text, JStr "text");
                                                ("text"%text, JStr content) ] ]) ] ].

(** [convertToBlocks] of the question script. *)
Definition convertToBlocks (content : Value) : Value :=
  if negb (truthy content) then JNull
  else if isArray content then content
  else match content with
       | JStr s => paragraph s
       | _ => JNull
       end.

(** [convertDescriptionToBlocks] of the topic script. *)
Definition convertDescriptionToBlocks (description : Value) : Value :=
  if negb (truthy description) then JNull
  else if isArray description then description
  else match description with
       | JStr s => paragraph s
       | _ => JNull
       end.

(** ** Strings *)

(** The class [\s], which is also what [trim] removes: the white space and
    line terminators of ECMAScript (tab to carriage return, space, no-break
    space, U+1680, U+2000 to U+200A, U+2028, U+2029, U+202F, U+205F,
    U+3000 and U+FEFF). *)
Definition is_space (u : N) : bool :=
  (((9 <=? u) && (u <=? 13)) || (u =? 32) || (u =? 160) || (u =? 5760)
   || ((8192 <=? u) && (u <=? 8202)) || (u =? 8232) || (u =? 8233)
   || (u =? 8239) || (u =? 8287) || (u =? 12288) || (u =? 65279))%N.

(** The class [\w]: ASCII letters, digits and the underscore. *)
Definition is_word (u : N) : bool :=
  (((48 <=? u) && (u <=? 57)) || ((65 <=? u) && (u <=? 90))
   || ((97 <=? u) && (u <=? 122)) || (u =? 95))%N.

Definition is_hyphen (u : N) : bool := (u =? 45)%N.

Definition is_underscore (u : N) : bool := (u =? 95)%N.

Fixpoint drop_while (p : N -> bool) (s : text) : text :=
  match s with
  | [] => []
  | u :: rest => if p u then drop_while p rest else s
  end.

Definition strip (p : N -> bool) (s : text) : text :=
  rev (drop_while p (rev (drop_while p s))).

(** [.replace(/[\s_-]+/g, '-')]: every maximal run of separators becomes
    one hyphen. *)
Fixpoint collapse_separators (in_run : bool) (s : text) : text :=
  match s with
  | [] => []
  | u :: rest =>
      if is_space u || is_underscore u || is_hyphen u
      then (if in_run then collapse_separators true rest
            else 45%N :: collapse_separators true rest)
      else u :: collapse_separators false rest
  end.

(** Digits of [Number.prototype.toString(36)] on a non-negative integer. *)
Definition digit36 (d : N) : N :=
  if (d <? 10)%N then (48 + d)%N else (87 + d)%N.

Fixpoint base36_digits (fuel : nat) (n : N) (acc : text) : text :=
  match fuel with
  | O => acc
  | S fuel' =>
      let acc' := digit36 (n mod 36)%N :: acc in
      if (n / 36 =? 0)%N then acc' else base36_digits fuel' (n / 36)%N acc'
  end.

Definition toString36 (n : N) : text :=
  base36_digits (S (N.size_nat n)) n [].

(** Decimal rendering of a loop index inside a template literal. *)
Definition decimal (i : nat) : text :=
  text_of_string (NilEmpty.string_of_uint (Nat.to_uint i)).

(** ** The content store, as the scripts see it *)

(** A document has an identifier and a name; [topic_more] holds whatever
    other attributes the store hands back with it. *)
Record TopicDoc := {
  topic_documentId : text;
  topic_name : text;
  topic_more : list (text * Value);
  topic_published : bool }.

Record TagDoc := {
  tag_documentId : text;
  tag_name : text;
  tag_slug : text;
  tag_more : list (text * Value);
  tag_published : bool }.

Record QuestionDoc := {
  question_documentId : text;
  question_code : option text }.

Record Store := {
  topics : list TopicDoc;
  tags : list TagDoc;
  questions : list QuestionDoc }.

(** What the question script needs of a cached document: its identifier
    and, for a document that ends up as the prototype of a cache, its own
    properties. *)
Class Document (D : Type) := {
  documentId : D -> text;
  own_member : D -> text -> option Value }.

Definition member_of (more : list (text * Value)) (k : text) : option Value :=
  if has_own more k then Some (own_property more k) else None.

#[export] Instance topic_document : Document TopicDoc := {|
  documentId := topic_documentId;
  own_member := fun d k =>
    if text_eqb k "documentId" then Some (JStr (topic_documentId d))
    else if text_eqb k "name" then Some (JStr (topic_name d))
    else member_of (topic_more d) k |}.

#[export] Instance tag_document : Document TagDoc := {|
  documentId := tag_documentId;
  own_member := fun d k =>
    if text_eqb k "documentId" then Some (JStr (tag_documentId d))
    else if text_eqb k "name" then Some (JStr (tag_name d))
    else if text_eqb k "slug" then Some (JStr (tag_slug d))
    else member_of (tag_more d) k |}.

(** The [data] of a create request. *)
Record TopicEntry := {
  te_name : Value;
  te_description : Value }.

Record TagEntry := {
  ge_name : Value;
  ge_slug : Value }.

Record QuestionEntry := {
  qe_code : Value;
  qe_question : Value;
  qe_type : Value;
  qe_answers : Value;
  qe_correctAnswer : Value;
  qe_explanation : Value;
  qe_difficulty : Value;
  qe_source : Value;
  qe_version : Value;
  qe_question_topic : Value;
  qe_question_tags : list Value }.

Inductive Entry : Type :=
| TopicData (e : TopicEntry)
| TagData (e : TagEntry)
| QuestionData (e : QuestionEntry).

Inductive Kind : Type := QuestionTopic | QuestionTag | Question.

(** The filters the scripts pass to [findMany]. *)
Inductive Query : Type :=
| StatusPublished
| NameEq (v : Value)
| SlugEq (v : Value)
| CodeEq (v : Value).

(** One constructor per message of the scripts; the arguments of a
    template literal are the values it interpolates. *)
Inductive Message : Type :=
| DataFileNotFound
| FormatHint
| ParseFailed
| NotAnArray (k : Kind)
| Found (k : Kind) (n : nat)
| DryRunBanner
| BlankLine
| CacheLoaded (k : Kind) (n : nat)
| EntryWithoutName
| MissingQuestionText (index : nat)
| InvalidAnswers (code : Value)
| InvalidCorrectAnswer (code : Value)
| SkippingExisting (k : Kind) (key : Value)
| WouldCreateTopic (name : Value)
| WouldCreateTag (name slug : Value)
| WouldCreateQuestion (code topic tags : Value)
| CreatedTopic (name : Value)
| CreatedTag (name slug : Value)
| CreatedQuestion (code : Value)
| FailedToCreate (k : Kind) (key : Value)
| ErrorMessage
| MissingTopics (names : list text)
| MissingTags (names : list text).

Inductive Event : Type :=
| ConsoleError (m : Message)
| ConsoleLog (m : Message)
| FindMany (k : Kind) (q : Query) (hits : nat)
| Create (e : Entry) (ok : bool).

(** What a run takes from outside: the engine's [toLowerCase], the store's
    answer to a create request ([None] when it throws), the clock read for
    the record at an index, and the characters
    [Math.random().toString(36).substring(2, 6)] yields for it. *)
Record Env := {
  env_toLowerCase : text -> text;
  env_create : Store -> Entry -> option Store;
  env_now : nat -> N;
  env_random : nat -> text }.

(** ** Plain objects used as maps *)

(** A cache is an object literal [{}] filled by assignments [cache[k] = d]:
    its own properties, and its prototype when an assignment to [__proto__]
    has replaced [Object.prototype] by a document. *)
Record Cache (D : Type) := {
  own : gmap text D;
  proto : option D }.

Arguments own {D} c.

Arguments proto {D} c.

Definition emptyCache {D} : Cache D := {| own := ∅; proto := None |}.

(** The names [Object.prototype] defines. *)
Definition native (k : text) : bool :=
  existsb (text_eqb k)
    [ "constructor"%text; "__defineGetter__"%text; "__defineSetter__"%text;
      "hasOwnProperty"%text; "__lookupGetter__"%text; "__lookupSetter__"%text;
      "isPrototypeOf"%text; "propertyIsEnumerable"%text; "toString"%text;
      "valueOf"%text; "__proto__"%text; "toLocaleString"%text ].

(** Whether the prototype chain of the cache has a data property [k]
    before [Object.prototype] is reached. *)
Definition shadowed `{Document D} (c : Cache D) (k : text) : bool :=
  match own c !! k, proto c with
  | Some _, _ => true
  | None, Some p => match own_member p k with Some _ => true | None => false end
  | None, None => false
  end.

(** [cache[k] = d]: the setter of [__proto__] is reached unless a data
    property of that name comes first. *)
Definition assign `{Document D} (c : Cache D) (k : text) (d : D) : Cache D :=
  if text_eqb k "__proto__" && negb (shadowed c k)
  then {| own := own c; proto := Some d |}
  else {| own := <[k := d]> (own c); proto := proto c |}.

(** What [cache[k]] evaluates to: a cached document, a property of the
    document that serves as prototype, a member of [Object.prototype]
    (a function, or the prototype object itself), or [undefined]. *)
Inductive Slot (D : Type) : Type :=
| Entity (d : D)
| Data (v : Value)
| Native.

Arguments Entity {D} d.

Arguments Data {D} v.

Arguments Native {D}.

Definition lookup_key `{Document D} (c : Cache D) (k : text) : Slot D :=
  match own c !! k with
  | Some d => Entity d
  | None =>
      match proto c with
      | Some p =>
          match own_member p k with
          | Some v => Data v
          | None =>
              if text_eqb k "__proto__" then Entity p
              else if native k then Native else Data JUndefined
          end
      | None => if native k then Native else Data JUndefined
      end
  end.

(** Truthiness of what a lookup found. *)
Definition filled {D} (s : Slot D) : bool :=
  match s with
  | Entity _ | Native => true
  | Data v => truthy v
  end.

Record World := {
  store : Store;
  topicsCache : Cache TopicDoc;
  tagsCache : Cache TagDoc }.

Definition with_store (w : World) (s : Store) : World :=
  {| store := s; topicsCache := topicsCache w; tagsCache := tagsCache w |}.

(** ** Computations: state, trace and exceptions *)

Inductive Completion (A : Type) : Type :=
| Normal (a : A)
| Throw.

Arguments Normal {A} a.

Arguments Throw {A}.

Definition Js (A : Type) : Type := World -> Completion A * World * list Event.

Definition ret {A} (a : A) : Js A := fun w => (Normal a, w, []).

Definition throw {A} : Js A := fun w => (Throw, w, []).

Definition bind {A B} (m : Js A) (k : A -> Js B) : Js B := fun w =>
  match m w with
  | (Normal a, w1, ev1) =>
      match k a w1 with (r, w2, ev2) => (r, w2, ev1 ++ ev2) end
  | (Throw, w1, ev1) => (Throw, w1, ev1)
  end.

Notation "'let*' x ':=' m 'in' k" := (bind m (fun x => k))
  (at level 10, x pattern, m at level 100, k at level 200).

Notation "m ';;' k" := (bind m (fun _ => k))
  (at level 100, k at level 200, right associativity).

(** [try { body } catch (error) { handler }] *)
Definition try_catch {A} (body handler : Js A) : Js A := fun w =>
  match body w with
  | (Throw, w1, ev1) =>
      match handler w1 with (r, w2, ev2) => (r, w2, ev1 ++ ev2) end
  | done => done
  end.

Definition emit (e : Event) : Js unit := fun w => (Normal tt, w, [e]).

Definition world : Js World := fun w => (Normal w, w, []).

Definition completion {A} (r : Completion A * World * list Event) : Completion A :=
  fst (fst r).

Definition final {A} (r : Completion A * World * list Event) : World :=
  snd (fst r).

Definition events {A} (r : Completion A * World * list Event) : list Event :=
  snd r.

(** [v.k], for the property names the scripts read: reading a property of
    [null] or [undefined] throws; a primitive or an array has none of
    them. *)
Definition get (v : Value) (k : text) : Js Value :=
  match v with
  | JUndefined | JNull => throw
  | JObj fields => ret (own_property fields k)
  | _ => ret JUndefined
  end.

(** [v.toLowerCase()]: only a string has the method. *)
Definition js_toLowerCase (env : Env) (v : Value) : Js text :=
  match v with
  | JStr s => ret (env_toLowerCase env s)
  | _ => throw
  end.

(** The string held by a string value. *)
Definition text_of (v : Value) : text :=
  match v with JStr s => s | _ => [] end.

Definition value_is (s : text) (v : Value) : bool :=
  match v with JStr s' => text_eqb s s' | _ => false end.

(** ** The console *)

(** The values a message interpolates, in the order of the template. *)
Definition printed (m : Message) : list Value :=
  match m with
  | InvalidAnswers code | InvalidCorrectAnswer code => [code]
  | SkippingExisting _ key => [key]
  | WouldCreateTopic name => [name]
  | WouldCreateTag name slug => [name; slug]
  | WouldCreateQuestion code topic labels => [code; topic; labels]
  | CreatedTopic name => [name]
  | CreatedTag name slug => [name; slug]
  | CreatedQuestion code => [code]
  | FailedToCreate _ key => [key]
  | _ => []
  end.

Definition printable (m : Message) : bool := forallb renderable (printed m).

(** [console.log(`...`)] and [console.error(`...`)]: the template literal
    is evaluated first, and throws when a value cannot be converted. *)
Definition console_log (m : Message) : Js unit :=
  if printable m then emit (ConsoleLog m) else throw.

Definition console_error (m : Message) : Js unit :=
  if printable m then emit (ConsoleError m) else throw.

(** ** Store operations *)

Definition findManyTopics (q : Query) : Js (list TopicDoc) := fun w =>
  let hits :=
    match q with
    | StatusPublished => List.filter topic_published (topics (store w))
    | NameEq v => List.filter (fun d => value_is (topic_name d) v) (topics (store w))
    | _ => []
    end in
  (Normal hits, w, [FindMany QuestionTopic q (length hits)]).

Definition findManyTags (q : Query) : Js (list TagDoc) := fun w =>
  let hits :=
    match q with
    | StatusPublished => List.filter tag_published (tags (store w))
    | NameEq v => List.filter (fun d => value_is (tag_name d) v) (tags (store w))
    | SlugEq v => List.filter (fun d => value_is (tag_slug d) v) (tags (store w))
    | _ => []
    end in
  (Normal hits, w, [FindMany QuestionTag q (length hits)]).

Definition code_is (c : option text) (v : Value) : bool :=
  match c with Some s => value_is s v | None => false end.

Definition findManyQuestions (q : Query) : Js (list QuestionDoc) := fun w =>
  let hits :=
    match q with
    | CodeEq v => List.filter (fun d => code_is (question_code d) v) (questions (store w))
    | _ => []
    end in
  (Normal hits, w, [FindMany Question q (length hits)]).

(** [await strapi.documents(kind).create({ data: { ...entry, publishedAt } })]:
    the store takes the document or the call throws.  The time stamp added
    to the entry is left to the store. *)
Definition create (env : Env) (e : Entry) : Js unit := fun w =>
  match env_create env (store w) e with
  | Some s' => (Normal tt, with_store w s', [Create e true])
  | None => (Throw, w, [Create e false])
  end.

(** ** Shared shape of the three scripts *)

Record Options := {
  skipExisting : bool;
  dryRun : bool }.

(** [options = {}]: the destructuring defaults. *)
Definition defaultOptions : Options :=
  {| skipExisting := true; dryRun := false |}.

Record ImportResult := {
  created : nat;
  skipped : nat;
  failed : nat }.

Definition zeroResult : ImportResult :=
  {| created := 0; skipped := 0; failed := 0 |}.

Definition incr_created (r : ImportResult) : ImportResult :=
  {| created := S (created r); skipped := skipped r; failed := failed r |}.

Definition incr_skipped (r : ImportResult) : ImportResult :=
  {| created := created r; skipped := S (skipped r); failed := failed r |}.

Definition incr_failed (r : ImportResult) : ImportResult :=
  {| created := created r; skipped := skipped r; failed := S (failed r) |}.

Definition total (r : ImportResult) : nat := created r + skipped r + failed r.

(** What [fs.existsSync], [fs.readFileSync] and [JSON.parse] make of the
    path: no file, a file that cannot be read or parsed, or a value. *)
Inductive DataFile : Type :=
| FileMissing
| FileUnparseable
| FileJson (v : Value).

(** [for (const row of rows) body] and [for (let i = 0; ...) body]. *)
Fixpoint forEach {A Acc : Type} (body : A -> Acc -> Js Acc)
    (rows : list A) (acc : Acc) : Js Acc :=
  match rows with
  | [] => ret acc
  | row :: rest => let* acc' := body row acc in forEach body rest acc'
  end.

Fixpoint forIndex {A Acc : Type} (body : nat -> A -> Acc -> Js Acc)
    (i : nat) (rows : list A) (acc : Acc) : Js Acc :=
  match rows with
  | [] => ret acc
  | row :: rest => let* acc' := body i row acc in forIndex body (S i) rest acc'
  end.

Definition announce (k : Kind) (opts : Options) (n : nat) : Js unit :=
  console_log (Found k n) ;;
  console_log (if dryRun opts then DryRunBanner else BlankLine).

(** ** import-question-topics.js *)

Definition createQuestionTopic (env : Env) (entry : TopicEntry) : Js bool :=
  try_catch
    (create env (TopicData entry) ;;
     console_log (CreatedTopic (te_name entry)) ;;
     ret true)
    (console_error (FailedToCreate QuestionTopic (te_name entry)) ;;
     console_error ErrorMessage ;;
     ret false).

Definition checkExistingTopic (name : Value) : Js bool :=
  let* existing := findManyTopics (NameEq name) in
  ret (0 <? length existing).

Definition stepTopic (env : Env) (opts : Options)
    (topic : Value) (acc : ImportResult) : Js ImportResult :=
  let* name := get topic "name" in
  if negb (truthy name) then
    console_error EntryWithoutName ;; ret (incr_failed acc)
  else
    let* found := (if skipExisting opts then checkExistingTopic name else ret false) in
    if found then
      console_log (SkippingExisting QuestionTopic name) ;; ret (incr_skipped acc)
    else
      let* description := get topic "description" in
      let entry := {| te_name := name;
                      te_description := convertDescriptionToBlocks description |} in
      if dryRun opts then
        console_log (WouldCreateTopic (te_name entry)) ;; ret (incr_created acc)
      else
        let* ok := createQuestionTopic env entry in
        ret (if ok then incr_created acc else incr_failed acc).

Definition importQuestionTopics (env : Env) (opts : Options)
    (dataFile : DataFile) : Js ImportResult :=
  match dataFile with
  | FileMissing =>
      console_error DataFileNotFound ;;
      console_log FormatHint ;; console_log FormatHint ;;
      ret zeroResult
  | FileUnparseable => console_error ParseFailed ;; ret zeroResult
  | FileJson (JArr rows) =>
      announce QuestionTopic opts (length rows) ;;
      forEach (stepTopic env opts) rows zeroResult
  | FileJson _ => console_error (NotAnArray QuestionTopic) ;; ret zeroResult
  end.

(** ** The question-tag script *)

(** [generateSlug]: lower case, trim, drop what is neither [\w], [\s] nor a
    hyphen, collapse the separators, drop the hyphens at both ends. *)
Definition generateSlug (env : Env) (str : text) : text :=
  let lowered := env_toLowerCase env str in
  let trimmed := strip is_space lowered in
  let kept := List.filter (fun u => is_word u || is_space u || is_hyphen u) trimmed in
  let joined := collapse_separators false kept in
  strip is_hyphen joined.

(** [generateSlug(v)] on a value that need not be a string: the first
    call, [v.toLowerCase()], throws on anything else. *)
Definition js_generateSlug (env : Env) (v : Value) : Js text :=
  match v with
  | JStr s => ret (generateSlug env s)
  | _ => throw
  end.

Definition createQuestionTag (env : Env) (entry : TagEntry) : Js bool :=
  try_catch
    (create env (TagData entry) ;;
     console_log (CreatedTag (ge_name entry) (ge_slug entry)) ;;
     ret true)
    (console_error (FailedToCreate QuestionTag (ge_name entry)) ;;
     console_error ErrorMessage ;;
     ret false).

Definition checkExistingTag (name slug : Value) : Js bool :=
  let* existingByName := findManyTags (NameEq name) in
  let* existingBySlug := findManyTags (SlugEq slug) in
  ret ((0 <? length existingByName) || (0 <? length existingBySlug)).

Definition stepTag (env : Env) (opts : Options)
    (tag : Value) (acc : ImportResult) : Js ImportResult :=
  let* name := get tag "name" in
  if negb (truthy name) then
    console_error EntryWithoutName ;; ret (incr_failed acc)
  else
    let* given := get tag "slug" in
    let* slug := (if truthy given then ret given
                  else let* s := js_generateSlug env name in ret (JStr s)) in
    let* found := (if skipExisting opts then checkExistingTag name slug else ret false) in
    if found then
      console_log (SkippingExisting QuestionTag name) ;; ret (incr_skipped acc)
    else
      let entry := {| ge_name := name; ge_slug := slug |} in
      if dryRun opts then
        console_log (WouldCreateTag (ge_name entry) (ge_slug entry)) ;;
        ret (incr_created acc)
      else
        let* ok := createQuestionTag env entry in
        ret (if ok then incr_created acc else incr_failed acc).

Definition importQuestionTags (env : Env) (opts : Options)
    (dataFile : DataFile) : Js ImportResult :=
  match dataFile with
  | FileMissing =>
      console_error DataFileNotFound ;;
      console_log FormatHint ;; console_log FormatHint ;;
      ret zeroResult
  | FileUnparseable => console_error ParseFailed ;; ret zeroResult
  | FileJson (JArr rows) =>
      announce QuestionTag opts (length rows) ;;
      forEach (stepTag env opts) rows zeroResult
  | FileJson _ => console_error (NotAnArray QuestionTag) ;; ret zeroResult
  end.

(** ** The question script *)

(** The loops of [loadTopicsCache] and [loadTagsCache]:
    [cache[doc.name.toLowerCase()] = doc] for each document in turn. *)
Definition index_topics (env : Env) (docs : list TopicDoc) : Cache TopicDoc :=
  foldl (fun cache topic => assign cache (env_toLowerCase env (topic_name topic)) topic)
    emptyCache docs.

Definition index_tags (env : Env) (docs : list TagDoc) : Cache TagDoc :=
  foldl (fun cache tag => assign cache (env_toLowerCase env (tag_name tag)) tag)
    emptyCache docs.

(** [Object.keys(cache).length] counts the own properties. *)
Definition loadTopicsCache (env : Env) : Js unit :=
  let* docs := findManyTopics StatusPublished in
  fun w =>
    let cache := index_topics env docs in
    (Normal tt,
     {| store := store w; topicsCache := cache; tagsCache := tagsCache w |},
     [ConsoleLog (CacheLoaded QuestionTopic (size (own cache)))]).

Definition loadTagsCache (env : Env) : Js unit :=
  let* docs := findManyTags StatusPublished in
  fun w =>
    let cache := index_tags env docs in
    (Normal tt,
     {| store := store w; topicsCache := topicsCache w; tagsCache := cache |},
     [ConsoleLog (CacheLoaded QuestionTag (size (own cache)))]).

(** [slot.documentId], for what a lookup found. *)
Definition documentId_of `{Document D} (s : Slot D) : Js Value :=
  match s with
  | Entity d => ret (JStr (documentId d))
  | Data v => get v "documentId"
  | Native => ret JUndefined
  end.

(** [topicsCache[name.toLowerCase()] || null] *)
Definition findTopicByName (env : Env) (name : Value) : Js (Slot TopicDoc) :=
  if negb (truthy name) then ret (Data JNull)
  else
    let* key := js_toLowerCase env name in
    let* w := world in
    let hit := lookup_key (topicsCache w) key in
    ret (if filled hit then hit else Data JNull).

Fixpoint collectTags (env : Env) (names : list Value) (foundTags : list (Slot TagDoc))
    : Js (list (Slot TagDoc)) :=
  match names with
  | [] => ret foundTags
  | name :: rest =>
      let* key := js_toLowerCase env name in
      let* w := world in
      let tag := lookup_key (tagsCache w) key in
      if filled tag then collectTags env rest (foundTags ++ [tag])
      else collectTags env rest foundTags
  end.

Definition findTagsByNames (env : Env) (names : Value) : Js (list (Slot TagDoc)) :=
  match names with
  | JArr items => collectTags env items []
  | _ => ret []
  end.

(** [tags.map((t) => t.documentId)] *)
Fixpoint documentIds (found : list (Slot TagDoc)) : Js (list Value) :=
  match found with
  | [] => ret []
  | t :: rest =>
      let* id := documentId_of t in
      let* ids := documentIds rest in
      ret (id :: ids)
  end.

Definition checkExistingQuestion (code : Value) : Js bool :=
  if negb (truthy code) then ret false
  else
    let* existing := findManyQuestions (CodeEq code) in
    ret (0 <? length existing).

(** [generateCode(index)]: Q-<clock in base 36>-<random suffix>-<index>. *)
Definition generateCode (env : Env) (index : nat) : text :=
  "Q-"%text ++ toString36 (env_now env index) ++ "-"%text ++ env_random env index
            ++ "-"%text ++ decimal index.

Definition createQuestion (env : Env) (entry : QuestionEntry) : Js bool :=
  try_catch
    (create env (QuestionData entry) ;;
     console_log (CreatedQuestion (qe_code entry)) ;;
     ret true)
    (console_error (FailedToCreate Question (qe_code entry)) ;;
     console_error ErrorMessage ;;
     ret false).

(** A JavaScript [Set] of strings: insertion order, no repetition. *)
Definition set_add (x : text) (s : list text) : list text :=
  if bool_decide (x ∈ s) then s else s ++ [x].

Record Progress := {
  counts : ImportResult;
  missingTopics : list text;
  missingTags : list text }.

Definition startProgress : Progress :=
  {| counts := zeroResult; missingTopics := []; missingTags := [] |}.

Definition count (f : ImportResult -> ImportResult) (p : Progress) : Progress :=
  {| counts := f (counts p);
     missingTopics := missingTopics p;
     missingTags := missingTags p |}.

(** [!v || !Array.isArray(v) || v.length === 0] *)
Definition no_items (v : Value) : bool :=
  negb (truthy v) || negb (isArray v)
  || match v with JArr items => length items =? 0 | _ => false end.

(** [q.code || generateCode(i)] *)
Definition codeFor (env : Env) (i : nat) (q : Value) : Js Value :=
  let* supplied := get q "code" in
  ret (if truthy supplied then supplied else JStr (generateCode env i)).

(** The loop over [q.tags] that tracks the names missing from the cache. *)
Fixpoint trackMissingTags (env : Env) (names : list Value) (missing : list text)
    : Js (list text) :=
  match names with
  | [] => ret missing
  | tagName :: rest =>
      let* key := js_toLowerCase env tagName in
      let* w := world in
      if filled (lookup_key (tagsCache w) key)
      then trackMissingTags env rest missing
      else trackMissingTags env rest (set_add (text_of tagName) missing)
  end.

(** [q.tags?.join(', ')]: only [null] and [undefined] stop the chain, only
    an array has [join], and [join] converts the elements. *)
Definition optional_join (v : Value) : Js unit :=
  match v with
  | JUndefined | JNull => ret tt
  | JArr items => if forallb renderable items then ret tt else throw
  | _ => throw
  end.

Definition items_of (v : Value) : list Value :=
  match v with JArr items => items | _ => [] end.

Definition stepQuestion (env : Env) (opts : Options)
    (i : nat) (q : Value) (acc : Progress) : Js Progress :=
  let* code := codeFor env i q in
  let* question := get q "question" in
  if negb (truthy question) then
    console_error (MissingQuestionText i) ;; ret (count incr_failed acc)
  else
  let* answers := get q "answers" in
  if no_items answers then
    console_error (InvalidAnswers code) ;; ret (count incr_failed acc)
  else
  let* correctAnswer := get q "correctAnswer" in
  if no_items correctAnswer then
    console_error (InvalidCorrectAnswer code) ;; ret (count incr_failed acc)
  else
  let* supplied := get q "code" in
  let* found := (if skipExisting opts && truthy supplied
                 then checkExistingQuestion supplied else ret false) in
  if found then
    console_log (SkippingExisting Question code) ;; ret (count incr_skipped acc)
  else
  let* topic := get q "topic" in
  let* linked :=
    (if truthy topic then
       let* hit := findTopicByName env topic in
       if filled hit then
         let* topicId := documentId_of hit in ret (topicId, missingTopics acc)
       else ret (JNull, set_add (text_of topic) (missingTopics acc))
     else ret (JNull, missingTopics acc)) in
  let* labels := get q "tags" in
  let* tagged :=
    (if truthy labels && isArray labels then
       let* found := findTagsByNames env labels in
       let* tagIds := documentIds found in
       let* missing := trackMissingTags env (items_of labels) (missingTags acc) in
       ret (tagIds, missing)
     else ret ([], missingTags acc)) in
  let* explanation := get q "explanation" in
  let* type := get q "type" in
  let* difficulty := get q "difficulty" in
  let* source := get q "source" in
  let* version := get q "version" in
  let entry :=
    {| qe_code := code;
       qe_question := convertToBlocks question;
       qe_type := js_or type (JStr "single");
       qe_answers := answers;
       qe_correctAnswer := correctAnswer;
       qe_explanation := convertToBlocks explanation;
       qe_difficulty := js_or difficulty (JStr "easy");
       qe_source := js_or source JNull;
       qe_version := js_or version (JNum 1);
       qe_question_topic := fst linked;
       qe_question_tags := fst tagged |} in
  let acc' := {| counts := counts acc;
                 missingTopics := snd linked;
                 missingTags := snd tagged |} in
  if dryRun opts then
    optional_join labels ;;
    console_log (WouldCreateQuestion code (js_or topic (JStr "none")) labels) ;;
    ret (count incr_created acc')
  else
    let* ok := createQuestion env entry in
    ret (count (if ok then incr_created else incr_failed) acc').

(** The two reports after the loop. *)
Definition reportMissing (p : Progress) : Js unit :=
  (if 0 <? length (missingTopics p)
   then console_log (MissingTopics (missingTopics p)) else ret tt) ;;
  (if 0 <? length (missingTags p)
   then console_log (MissingTags (missingTags p)) else ret tt).

Definition importQuestions (env : Env) (opts : Options)
    (dataFile : DataFile) : Js ImportResult :=
  match dataFile with
  | FileMissing =>
      console_error DataFileNotFound ;; console_log FormatHint ;;
      ret zeroResult
  | FileUnparseable => console_error ParseFailed ;; ret zeroResult
  | FileJson (JArr rows) =>
      loadTopicsCache env ;;
      loadTagsCache env ;;
      announce Question opts (length rows) ;;
      let* done := forIndex (stepQuestion env opts) 0 rows startProgress in
      reportMissing done ;;
      ret (counts done)
  | FileJson _ => console_error (NotAnArray Question) ;; ret zeroResult
  end.

(** * Vocabulary of the properties *)

(** ** Engines, stores and inputs to run the scripts on *)

(** What [toLowerCase] does to the code units below 128: the letters A to
    Z move to a to z, nothing else changes. *)
Definition lower_unit (u : N) : N :=
  if ((65 <=? u) && (u <=? 90))%N then (u + 32)%N else u.

Definition asciiLowerCase (s : text) : text := map lower_unit s.

Definition emptyStore : Store :=
  {| topics := []; tags := []; questions := [] |}.

(** The world when a script starts: both caches are [{}]. *)
Definition boot (s : Store) : World :=
  {| store := s; topicsCache := emptyCache; tagsCache := emptyCache |}.

(** An in-memory content store: a create request appends the document. *)
Definition memoryCreate (s : Store) (e : Entry) : option Store :=
  match e with
  | TopicData t =>
      match te_name t with
      | JStr n =>
          Some {| topics := topics s ++
                    [{| topic_documentId := "topic-"%text ++ decimal (length (topics s));
                        topic_name := n;
                        topic_more := [];
                        topic_published := true |}];
                  tags := tags s;
                  questions := questions s |}
      | _ => None
      end
  | TagData g =>
      match ge_name g, ge_slug g with
      | JStr n, JStr sl =>
          Some {| topics := topics s;
                  tags := tags s ++
                    [{| tag_documentId := "tag-"%text ++ decimal (length (tags s));
                        tag_name := n;
                        tag_slug := sl;
                        tag_more := [];
                        tag_published := true |}];
                  questions := questions s |}
      | _, _ => None
      end
  | QuestionData q =>
      Some {| topics := topics s;
              tags := tags s;
              questions := questions s ++
                [{| question_documentId :=
                      "question-"%text ++ decimal (length (questions s));
                    question_code :=
                      match qe_code q with JStr c => Some c | _ => None end |}] |}
  end.

Definition memoryEnv : Env :=
  {| env_toLowerCase := asciiLowerCase;
     env_create := memoryCreate;
     env_now := fun i => (1700000000000 + N.of_nat i)%N;
     env_random := fun _ => "k3x9"%text |}.


(** A store that takes whatever it is sent and keeps no record of it. *)
Definition acceptingEnv : Env :=
  {| env_toLowerCase := asciiLowerCase;
     env_create := fun s _ => Some s;
     env_now := fun i => (1700000000000 + N.of_nat i)%N;
     env_random := fun _ => "k3x9"%text |}.

Definition dryOptions : Options := {| skipExisting := true; dryRun := true |}.


Definition mathTopic : Value :=
  JObj [("name"%text, JStr "Math"); ("description"%text, JStr "Algebra")].


Definition franceQuestion : Value :=
  JObj [("code"%text, JStr "Q001");
        ("question"%text, JStr "What is the capital of France?");
        ("type"%text, JStr "single");
        ("answers"%text, JArr [JObj [("id"%text, JStr "A"); ("content"%text, JStr "London")];
                               JObj [("id"%text, JStr "B"); ("content"%text, JStr "Paris")]]);
        ("correctAnswer"%text, JArr [JStr "B"]);
        ("topic"%text, JStr "Geography");
        ("tags"%text, JArr [JStr "Europe"; JStr "Capitals"])].

(** The same question without a code. *)
Definition uncodedQuestion : Value :=
  JObj [("question"%text, JStr "What is the capital of France?");
        ("answers"%text, JArr [JObj [("id"%text, JStr "B"); ("content"%text, JStr "Paris")]]);
        ("correctAnswer"%text, JArr [JStr "B"]);
        ("topic"%text, JStr "Geography");
        ("tags"%text, JArr [JStr "Europe"])].

Definition geographyTopic : TopicDoc :=
  {| topic_documentId := "t1"; topic_name := "Geography"; topic_more := [];
     topic_published := true |}.

Definition europeTag : TagDoc :=
  {| tag_documentId := "g1"; tag_name := "Europe"; tag_slug := "europe";
     tag_more := []; tag_published := true |}.

Definition geographyStore : Store :=
  {| topics := [geographyTopic];
     tags := [europeTag];
     questions := [{| question_documentId := "q1";
                      question_code := Some "Q001"%text |}] |}.

(** A value with no string conversion: [{"toString": 1}]. *)
Definition unprintable : Value := JObj [("toString"%text, JNum 1)].

(** ** Rows with fields *)

(** A row that is not [null] can be asked for its fields. *)
Definition is_record (v : Value) : bool :=
  match v with JUndefined | JNull => false | _ => true end.

(** The value of a field of a record. *)
Definition field (v : Value) (k : text) : Value :=
  match v with JObj fields => own_property fields k | _ => JUndefined end.

(** ** Results and traces *)

(** The result of a computation with some events put in front. *)
Definition after {A} (ev : list Event)
    (r : Completion A * World * list Event) : Completion A * World * list Event :=
  (completion r, final r, ev ++ events r).


Definition is_find (e : Event) : Prop :=
  match e with FindMany _ _ _ => True | _ => False end.

(** ** What a step does to a record, case by case *)

Definition topic_hits (w : World) (name : Value) : nat :=
  length (List.filter (fun d => value_is (topic_name d) name) (topics (store w))).

Definition tag_name_hits (w : World) (name : Value) : nat :=
  length (List.filter (fun d => value_is (tag_name d) name) (tags (store w))).

Definition tag_slug_hits (w : World) (slug : Value) : nat :=
  length (List.filter (fun d => value_is (tag_slug d) slug) (tags (store w))).

Definition question_hits (w : World) (code : Value) : nat :=
  length (List.filter (fun d => code_is (question_code d) code)
            (questions (store w))).

(** The slug a tag row ends up with: [tag.slug || generateSlug(tag.name)]. *)
Definition slug_of (env : Env) (row : Value) : Value :=
  if truthy (field row "slug") then field row "slug"
  else JStr (generateSlug env (text_of (field row "name"))).

Definition code_of (env : Env) (i : nat) (q : Value) : Value :=
  if truthy (field q "code") then field q "code" else JStr (generateCode env i).

(** A message on the console after the events [asked]: printed, or a
    [TypeError] when one of its values has no string conversion. *)
Definition spoken {A} (e : Message -> Event) (m : Message) (a : A) (w : World)
    (asked : list Event) : Completion A * World * list Event :=
  if printable m then (Normal a, w, asked ++ [e m]) else (Throw, w, asked).

(** The create request and its endings: the store takes the document and
    the success message is printed; the store takes it but the success
    message cannot be printed, which the [catch] block reports as a
    failure; the store refuses it.  The failure message may fail to print
    as well, and then the [TypeError] leaves the [catch] block. *)
Definition submitted {A} (env : Env) (w : World) (e : Entry) (good bad : Message)
    (asked : list Event) (yes no : A) : Completion A * World * list Event :=
  match env_create env (store w) e with
  | Some s' =>
      if printable good
      then (Normal yes, with_store w s', asked ++ [Create e true; ConsoleLog good])
      else if printable bad
      then (Normal no, with_store w s',
            asked ++ [Create e true; ConsoleError bad; ConsoleError ErrorMessage])
      else (Throw, with_store w s', asked ++ [Create e true])
  | None =>
      if printable bad
      then (Normal no, w,
            asked ++ [Create e false; ConsoleError bad; ConsoleError ErrorMessage])
      else (Throw, w, asked ++ [Create e false])
  end.

Definition topic_entry (row : Value) : TopicEntry :=
  {| te_name := field row "name";
     te_description := convertDescriptionToBlocks (field row "description") |}.

(** The loop body of the topic script on a row, spelled out. *)
Definition topic_outcome (env : Env) (opts : Options) (row : Value)
    (acc : ImportResult) (w : World) : Completion ImportResult * World * list Event :=
  let name := field row "name" in
  if negb (is_record row) then (Throw, w, [])
  else if negb (truthy name) then
    (Normal (incr_failed acc), w, [ConsoleError EntryWithoutName])
  else
    let asked := if skipExisting opts
                 then [FindMany QuestionTopic (NameEq name) (topic_hits w name)]
                 else [] in
    if skipExisting opts && (0 <? topic_hits w name) then
      spoken ConsoleLog (SkippingExisting QuestionTopic name) (incr_skipped acc) w asked
    else if dryRun opts then
      spoken ConsoleLog (WouldCreateTopic name) (incr_created acc) w asked
    else
      submitted env w (TopicData (topic_entry row))
        (CreatedTopic name) (FailedToCreate QuestionTopic name)
        asked (incr_created acc) (incr_failed acc).

Definition tag_entry (env : Env) (row : Value) : TagEntry :=
  {| ge_name := field row "name"; ge_slug := slug_of env row |}.

(** The loop body of the tag script on a row, spelled out. *)
Definition tag_outcome (env : Env) (opts : Options) (row : Value)
    (acc : ImportResult) (w : World) : Completion ImportResult * World * list Event :=
  let name := field row "name" in
  let slug := slug_of env row in
  if negb (is_record row) then (Throw, w, [])
  else if negb (truthy name) then
    (Normal (incr_failed acc), w, [ConsoleError EntryWithoutName])
  else if negb (truthy (field row "slug")) && negb (isString name) then (Throw, w, [])
  else
    let asked := if skipExisting opts
                 then [FindMany QuestionTag (NameEq name) (tag_name_hits w name);
                       FindMany QuestionTag (SlugEq slug) (tag_slug_hits w slug)]
                 else [] in
    if skipExisting opts
       && ((0 <? tag_name_hits w name) || (0 <? tag_slug_hits w slug)) then
      spoken ConsoleLog (SkippingExisting QuestionTag name) (incr_skipped acc) w asked
    else if dryRun opts then
      spoken ConsoleLog (WouldCreateTag name slug) (incr_created acc) w asked
    else
      submitted env w (TagData (tag_entry env row))
        (CreatedTag name slug) (FailedToCreate QuestionTag name)
        asked (incr_created acc) (incr_failed acc).

(** The part of the loop body of [stepQuestion] after the existence check:
    link the topic and the tags, build the entry, submit it
    ([stepQuestion_outcome] relates the two). *)
Definition linkAndSubmit (env : Env) (opts : Options)
    (q code : Value) (acc : Progress) : Js Progress :=
  let* topic := get q "topic" in
  let* linked :=
    (if truthy topic then
       let* hit := findTopicByName env topic in
       if filled hit then
         let* topicId := documentId_of hit in ret (topicId, missingTopics acc)
       else ret (JNull, set_add (text_of topic) (missingTopics acc))
     else ret (JNull, missingTopics acc)) in
  let* labels := get q "tags" in
  let* tagged :=
    (if truthy labels && isArray labels then
       let* found := findTagsByNames env labels in
       let* tagIds := documentIds found in
       let* missing := trackMissingTags env (items_of labels) (missingTags acc) in
       ret (tagIds, missing)
     else ret ([], missingTags acc)) in
  let* explanation := get q "explanation" in
  let* type := get q "type" in
  let* difficulty := get q "difficulty" in
  let* source := get q "source" in
  let* version := get q "version" in
  let entry :=
    {| qe_code := code;
       qe_question := convertToBlocks (field q "question");
       qe_type := js_or type (JStr "single");
       qe_answers := field q "answers";
       qe_correctAnswer := field q "correctAnswer";
       qe_explanation := convertToBlocks explanation;
       qe_difficulty := js_or difficulty (JStr "easy");
       qe_source := js_or source JNull;
       qe_version := js_or version (JNum 1);
       qe_question_topic := fst linked;
       qe_question_tags := fst tagged |} in
  let acc' := {| counts := counts acc;
                 missingTopics := snd linked;
                 missingTags := snd tagged |} in
  if dryRun opts then
    optional_join labels ;;
    console_log (WouldCreateQuestion code (js_or topic (JStr "none")) labels) ;;
    ret (count incr_created acc')
  else
    let* ok := createQuestion env entry in
    ret (count (if ok then incr_created else incr_failed) acc').

(** ** Reference resolution *)

Definition nullish (v : Value) : bool :=
  match v with JUndefined | JNull => true | _ => false end.

(** What the loop body needs of the names of a question row so that no
    method call is made on a value that lacks the method: the topic is
    falsy or a string, a [tags] array holds strings, and in a dry run
    [tags] is absent or an array. *)
Definition names_ok (dry : bool) (q : Value) : bool :=
  (negb (truthy (field q "topic")) || isString (field q "topic"))
  && (if truthy (field q "tags") && isArray (field q "tags")
      then forallb isString (items_of (field q "tags"))
      else negb dry || nullish (field q "tags")).

(** [slot.documentId] of a truthy slot. *)
Definition id_of `{Document D} (s : Slot D) : Value :=
  match s with
  | Entity d => JStr (documentId d)
  | Data v => field v "documentId"
  | Native => JUndefined
  end.

Definition topic_slot (env : Env) (w : World) (name : text) : Slot TopicDoc :=
  lookup_key (topicsCache w) (env_toLowerCase env name).

Definition tag_slot (env : Env) (w : World) (name : text) : Slot TagDoc :=
  lookup_key (tagsCache w) (env_toLowerCase env name).

Definition topic_link (env : Env) (w : World) (topic : Value) (missing : list text)
    : Value * list text :=
  if truthy topic then
    if filled (topic_slot env w (text_of topic))
    then (id_of (topic_slot env w (text_of topic)), missing)
    else (JNull, set_add (text_of topic) missing)
  else (JNull, missing).

Definition cached_tags (env : Env) (w : World) (names : list Value)
    : list (Slot TagDoc) :=
  List.filter filled (map (fun name => tag_slot env w (text_of name)) names).

Definition uncached_tags (env : Env) (w : World) (names : list Value)
    (missing : list text) : list text :=
  foldl (fun m name =>
           if filled (tag_slot env w (text_of name)) then m
           else set_add (text_of name) m) missing names.

Definition tag_links (env : Env) (w : World) (labels : Value) (missing : list text)
    : list Value * list text :=
  if truthy labels && isArray labels then
    (map id_of (cached_tags env w (items_of labels)),
     uncached_tags env w (items_of labels) missing)
  else ([], missing).

Definition question_entry (env : Env) (w : World) (q code : Value)
    (acc : Progress) : QuestionEntry :=
  {| qe_code := code;
     qe_question := convertToBlocks (field q "question");
     qe_type := js_or (field q "type") (JStr "single");
     qe_answers := field q "answers";
     qe_correctAnswer := field q "correctAnswer";
     qe_explanation := convertToBlocks (field q "explanation");
     qe_difficulty := js_or (field q "difficulty") (JStr "easy");
     qe_source := js_or (field q "source") JNull;
     qe_version := js_or (field q "version") (JNum 1);
     qe_question_topic := fst (topic_link env w (field q "topic") (missingTopics acc));
     qe_question_tags := fst (tag_links env w (field q "tags") (missingTags acc)) |}.

Definition linked_progress (env : Env) (w : World) (q : Value) (acc : Progress)
    : Progress :=
  {| counts := counts acc;
     missingTopics := snd (topic_link env w (field q "topic") (missingTopics acc));
     missingTags := snd (tag_links env w (field q "tags") (missingTags acc)) |}.

(** The loop body of the question script on a row, spelled out. *)
Definition question_outcome (env : Env) (opts : Options) (i : nat) (row : Value)
    (acc : Progress) (w : World) : Completion Progress * World * list Event :=
  let code := code_of env i row in
  let supplied := field row "code" in
  if negb (is_record row) then (Throw, w, [])
  else if negb (truthy (field row "question")) then
    (Normal (count incr_failed acc), w, [ConsoleError (MissingQuestionText i)])
  else if no_items (field row "answers") then
    spoken ConsoleError (InvalidAnswers code) (count incr_failed acc) w []
  else if no_items (field row "correctAnswer") then
    spoken ConsoleError (InvalidCorrectAnswer code) (count incr_failed acc) w []
  else
    let asked := if skipExisting opts && truthy supplied
                 then [FindMany Question (CodeEq supplied) (question_hits w supplied)]
                 else [] in
    if skipExisting opts && truthy supplied && (0 <? question_hits w supplied) then
      spoken ConsoleLog (SkippingExisting Question code) (count incr_skipped acc) w asked
    else if negb (names_ok (dryRun opts) row) then (Throw, w, asked)
    else
      let acc' := linked_progress env w row acc in
      if dryRun opts then
        spoken ConsoleLog
          (WouldCreateQuestion code (js_or (field row "topic") (JStr "none"))
             (field row "tags"))
          (count incr_created acc') w asked
      else
        submitted env w (QuestionData (question_entry env w row code acc))
          (CreatedQuestion code) (FailedToCreate Question code)
          asked (count incr_created acc') (count incr_failed acc').

(** ** Rows the loop bodies can process *)

(** A topic row is processed unless it is [null] or its name, being
    truthy, has no string conversion: every path past validation prints
    the name. *)
Definition topic_row_ok (row : Value) : bool :=
  is_record row
  && (negb (truthy (field row "name")) || renderable (field row "name")).

(** The store already has a tag of that name or of that slug, and the
    script asks. *)
Definition tag_is_there (env : Env) (opts : Options) (w : World) (row : Value)
    : bool :=
  skipExisting opts
  && ((0 <? tag_name_hits w (field row "name"))
      || (0 <? tag_slug_hits w (slug_of env row))).

(** A tag row with a name is processed when the slug can be had (given,
    or generated from a name that is a string), the name can be printed
    and, where the dry run announces the tag, the slug can be printed
    too. *)
Definition tag_row_ok (env : Env) (opts : Options) (w : World) (row : Value)
    : bool :=
  is_record row
  && (negb (truthy (field row "name"))
      || ((truthy (field row "slug") || isString (field row "name"))
          && renderable (field row "name")
          && (negb (dryRun opts) || tag_is_there env opts w row
              || renderable (slug_of env row)))).

(** The store already has a question of that code, and the script asks. *)
Definition question_is_there (opts : Options) (w : World) (row : Value) : bool :=
  skipExisting opts && truthy (field row "code")
  && (0 <? question_hits w (field row "code")).

(** A question row with its text is processed when its code can be
    printed and, if it gets as far as the references, they are named as
    [names_ok] says. *)
Definition question_row_ok (opts : Options) (w : World) (row : Value) : bool :=
  is_record row
  && (negb (truthy (field row "question"))
      || (renderable (field row "code")
          && (no_items (field row "answers") || no_items (field row "correctAnswer")
              || question_is_there opts w row
              || names_ok (dryRun opts) row))).

(** Exactly one counter has gone up by one. *)
Definition one_more (r r' : ImportResult) : Prop :=
  r' = incr_created r \/ r' = incr_skipped r \/ r' = incr_failed r.

(** The loop has gone through the rows [pre] without an exception and
    stands at [acc] in the world [w']. *)
Definition reaches {A Acc} (loop : list A -> Js Acc) (w : World)
    (pre : list A) (acc : Acc) (w' : World) : Prop :=
  exists ev, loop pre w = (Normal acc, w', ev).

(** How a run over [rows] ends.  Either every row could be processed in
    the world in which the loop reached it, and the result counts every
    row once; or the loop reached a row it could not process, having
    counted every row before it once, and the run ends there with an
    exception and no result. *)
Definition settled {A Acc} (loop : list A -> Js Acc) (ok : World -> A -> bool)
    (size : Acc -> nat) (w : World) (rows : list A)
    (result : Completion ImportResult) : Prop :=
  (exists r, result = Normal r /\ total r = length rows
     /\ forall pre row post, rows = pre ++ row :: post ->
          exists acc w', reaches loop w pre acc w'
                         /\ size acc = length pre /\ ok w' row = true)
  \/ (result = Throw
      /\ exists pre row post acc w',
           rows = pre ++ row :: post /\ reaches loop w pre acc w'
           /\ size acc = length pre /\ ok w' row = false).

(** The world in which the question records are processed: both caches
    filled from the published documents of the store. *)
Definition loaded (env : Env) (w : World) : World :=
  {| store := store w;
     topicsCache := index_topics env (List.filter topic_published (topics (store w)));
     tagsCache := index_tags env (List.filter tag_published (tags (store w))) |}.

Definition cache_events (env : Env) (w : World) : list Event :=
  [FindMany QuestionTopic StatusPublished
     (length (List.filter topic_published (topics (store w))));
   ConsoleLog (CacheLoaded QuestionTopic (size (own (topicsCache (loaded env w)))));
   FindMany QuestionTag StatusPublished
     (length (List.filter tag_published (tags (store w))));
   ConsoleLog (CacheLoaded QuestionTag (size (own (tagsCache (loaded env w)))))].

Definition announced (k : Kind) (opts : Options) (n : nat) : list Event :=
  [ConsoleLog (Found k n);
   ConsoleLog (if dryRun opts then DryRunBanner else BlankLine)].

(** What follows the loop of the question script. *)
Definition finish (p : Progress) : Js ImportResult :=
  reportMissing p ;; ret (counts p).

Definition report_events (p : Progress) : list Event :=
  (if 0 <? length (missingTopics p)
   then [ConsoleLog (MissingTopics (missingTopics p))] else [])
  ++ (if 0 <? length (missingTags p)
      then [ConsoleLog (MissingTags (missingTags p))] else []).

(** The loops of the three scripts, from their first row. *)
Definition topics_loop (env : Env) (opts : Options) (rows : list Value)
    : Js ImportResult :=
  forEach (stepTopic env opts) rows zeroResult.

Definition tags_loop (env : Env) (opts : Options) (rows : list Value)
    : Js ImportResult :=
  forEach (stepTag env opts) rows zeroResult.

Definition questions_loop (env : Env) (opts : Options) (rows : list Value)
    : Js Progress :=
  forIndex (stepQuestion env opts) 0 rows startProgress.

(** ** Inputs that end the run before the first record *)

(** The three conditions the scripts test before the loop. *)
Definition fatal_input (file : DataFile) : Prop :=
  file = FileMissing \/ file = FileUnparseable
  \/ exists v, file = FileJson v /\ isArray v = false.

Definition usage_hint (e : Event) : Prop := e = ConsoleLog FormatHint.

(** Returned at once: the zero result, the world as it was, one diagnostic
    on [console.error] followed by usage hints only. *)
Definition returned_at_once (r : Completion ImportResult * World * list Event)
    (w : World) : Prop :=
  exists diag hints,
    r = (Normal zeroResult, w, ConsoleError diag :: hints)
    /\ Forall usage_hint hints.

(** The run ended with an exception at a row the loop could not process,
    after going through the rows before it. *)
Definition stopped_at_a_row {A Acc} (loop : list A -> Js Acc)
    (ok : World -> A -> bool) (w : World) (rows : list A) : Prop :=
  exists pre row post acc w',
    rows = pre ++ row :: post /\ reaches loop w pre acc w' /\ ok w' row = false.

(** ** Text without a hyphen *)

Definition hyphen_free (s : text) : bool := forallb (fun u => negb (is_hyphen u)) s.

(** ** Records the store already has *)

(** The store reported at least one document of kind [k] for some query. *)
Definition reports_match (k : Kind) (ev : list Event) : Prop :=
  exists q n, In (FindMany k q n) ev /\ 0 < n.

(** ** Frames *)

(** What a computation may do to the world ([R]) and may emit ([P]). *)
Definition framed (R : World -> World -> Prop) (P : Event -> Prop)
    {A} (m : Js A) : Prop :=
  forall w, R w (final (m w)) /\ Forall P (events (m w)).


Definition same_store (w w' : World) : Prop := store w' = store w.

(** Only the two load functions write the caches. *)
Definition same_caches (w w' : World) : Prop :=
  topicsCache w' = topicsCache w /\ tagsCache w' = tagsCache w.

Definition anything (e : Event) : Prop := True.

(** ** Dry runs *)








Definition is_request (e : Event) : bool :=
  match e with Create _ _ => true | _ => false end.

(** The number of create requests in a trace. *)
Definition requests (ev : list Event) : nat :=
  length (List.filter is_request ev).

(** ** The caches of the question script *)

(** The last document of a list that matches. *)
Definition latest {D} (matches : D -> bool) (docs : list D) : option D :=
  List.find matches (rev docs).

(** Two names the engine's [toLowerCase] makes equal. *)
Definition same_up_to_case (env : Env) (a b : text) : Prop :=
  env_toLowerCase env a = env_toLowerCase env b.

Definition topic_named (env : Env) (n : text) (t : TopicDoc) : bool :=
  text_eqb (env_toLowerCase env (topic_name t)) (env_toLowerCase env n).

Definition tag_named (env : Env) (n : text) (g : TagDoc) : bool :=
  text_eqb (env_toLowerCase env (tag_name g)) (env_toLowerCase env n).

Definition published_topics (w : World) : list TopicDoc :=
  List.filter topic_published (topics (store w)).

Definition published_tags (w : World) : list TagDoc :=
  List.filter tag_published (tags (store w)).

(** The key under which an assignment does not add a property. *)
Definition proto_key (env : Env) (n : text) : bool :=
  text_eqb (env_toLowerCase env n) "__proto__".

(** Two code units that are equal or are the two cases of one of the
    letters A to Z. *)
Definition same_letter (x y : N) : Prop :=
  x = y
  \/ ((65 <= x <= 90)%N /\ y = (x + 32)%N)
  \/ ((65 <= y <= 90)%N /\ x = (y + 32)%N).

Definition is_ascii (s : text) : Prop := Forall (fun u => (u < 128)%N) s.

(** An engine whose [toLowerCase] treats the code units below 128 as
    ECMAScript prescribes. *)
Definition ascii_engine (env : Env) : Prop :=
  forall s, is_ascii s -> env_toLowerCase env s = asciiLowerCase s.


(** The loop of a load function, from any cache. *)
Definition index_by `{Document D} (key : D -> text) (c : Cache D) (docs : list D)
    : Cache D :=
  foldl (fun cache d => assign cache (key d) d) c docs.

(** A store whose one published topic has the empty name. *)
Definition namelessTopic : TopicDoc :=
  {| topic_documentId := "t0"; topic_name := ""; topic_more := [];
     topic_published := true |}.

Definition namelessStore : Store :=
  {| topics := [namelessTopic]; tags := []; questions := [] |}.

(** ** References that do not resolve *)





(** * Properties *)

(** ** The functions on concrete inputs *)

Example literal_units : "Az-"%text = [65; 122; 45]%N.
Proof. reflexivity. Qed.

Example convertToBlocks_algebra :
  convertDescriptionToBlocks (JStr "Algebra") =
  JArr [ JObj [ ("type"%text, JStr "paragraph");
                ("children"%text, JArr [ JObj [ ("type"%text, JStr "text");
                                                ("text"%text, JStr "Algebra") ] ]) ] ].
Proof. reflexivity. Qed.

Example generateSlug_beginner :
  generateSlug memoryEnv "  Beginner Friendly! " = "beginner-friendly"%text.
Proof. reflexivity. Qed.

Example generateSlug_mixed :
  generateSlug memoryEnv "__C++ / Rust_(2024)--" = "c-rust-2024"%text.
Proof. reflexivity. Qed.

(** A no-break space (U+00A0) and an ideographic space (U+3000) separate
    words like any other white space. *)
Example generateSlug_wide_spaces :
  generateSlug memoryEnv ([84; 111; 112; 160; 116; 101; 110; 12288; 33]%N)
  = "top-ten"%text.
Proof. reflexivity. Qed.

Example toString36_small : toString36 35 = "z"%text /\ toString36 36 = "10"%text.
Proof. split; reflexivity. Qed.

Example toString36_clock : toString36 1700000000000 = "loyw3v28"%text.
Proof. reflexivity. Qed.

Example decimal_12 : decimal 12 = "12"%text /\ decimal 0 = "0"%text.
Proof. split; reflexivity. Qed.

Example renderable_values :
  renderable unprintable = false
  /\ renderable (JArr [JStr "a"; JNull; unprintable]) = false
  /\ renderable (JObj [("valueOf"%text, JNum 1)]) = true
  /\ renderable (JArr [JNum 1; JArr [JNull]; JObj []]) = true.
Proof. repeat split. Qed.

(** ** Text and values *)

Lemma text_eqb_eq (a b : text) : text_eqb a b = true <-> a = b.
Proof.
  revert b. induction a as [|x a IH]; intros [|y b]; simpl;
    try (split; [discriminate | discriminate]); [tauto|].
  rewrite andb_true_iff, N.eqb_eq, IH.
  split; [intros [-> ->]; reflexivity | intros [= -> ->]; auto].
Qed.

Lemma text_eqb_refl (a : text) : text_eqb a a = true.
Proof. apply text_eqb_eq. reflexivity. Qed.

Lemma text_eqb_neq (a b : text) : text_eqb a b = false <-> a <> b.
Proof.
  rewrite <- text_eqb_eq. destruct (text_eqb a b); split; congruence.
Qed.

Lemma value_is_spec (s : text) (v : Value) :
  value_is s v = true <-> JStr s = v.
Proof.
  destruct v; simpl; try (split; [discriminate | discriminate]).
  rewrite text_eqb_eq. split; [intros -> | intros [= ->]]; reflexivity.
Qed.

Lemma hits_positive {A} (f : A -> bool) (l : list A) :
  (0 <? length (List.filter f l)) = true <-> exists d, In d l /\ f d = true.
Proof.
  rewrite Nat.ltb_lt. split.
  - intros H. destruct (List.filter f l) as [|d ds] eqn:E; [simpl in H; lia|].
    exists d. apply filter_In. rewrite E. now left.
  - intros (d & Hd & Hf).
    assert (In d (List.filter f l)) as Hin by (apply filter_In; auto).
    destruct (List.filter f l); [destruct Hin | simpl; lia].
Qed.

Lemma falsy_renderable (v : Value) : truthy v = false -> renderable v = true.
Proof. destruct v; simpl; intros H; try reflexivity; discriminate H. Qed.

Lemma string_renderable (v : Value) : isString v = true -> renderable v = true.
Proof. destruct v; simpl; intros H; try reflexivity; discriminate H. Qed.

(** ** Reasoning about computations *)

Lemma bind_normal {A B} (m : Js A) (k : A -> Js B) (w w1 : World)
    (a : A) (ev1 : list Event) :
  m w = (Normal a, w1, ev1) -> bind m k w = after ev1 (k a w1).
Proof.
  intros E. unfold bind, after, completion, final, events. rewrite E.
  destruct (k a w1) as [[r w2] ev2]. reflexivity.
Qed.

Lemma bind_throw {A B} (m : Js A) (k : A -> Js B) (w w1 : World)
    (ev1 : list Event) :
  m w = (Throw, w1, ev1) -> bind m k w = (Throw, w1, ev1).
Proof. intros E. unfold bind. rewrite E. reflexivity. Qed.

Lemma after_nil {A} (r : Completion A * World * list Event) : after [] r = r.
Proof. destruct r as [[c w] ev]. reflexivity. Qed.

Lemma after_after {A} (ev1 ev2 : list Event)
    (r : Completion A * World * list Event) :
  after ev1 (after ev2 r) = after (ev1 ++ ev2) r.
Proof. unfold after, completion, final, events. simpl. now rewrite app_assoc. Qed.

Lemma completion_after {A} (ev : list Event)
    (r : Completion A * World * list Event) :
  completion (after ev r) = completion r.
Proof. reflexivity. Qed.

Lemma final_after {A} (ev : list Event)
    (r : Completion A * World * list Event) :
  final (after ev r) = final r.
Proof. reflexivity. Qed.


Lemma forEach_cons {A Acc} (body : A -> Acc -> Js Acc) (row : A)
    (rest : list A) (acc acc' : Acc) (w w' : World) (ev : list Event) :
  body row acc w = (Normal acc', w', ev) ->
  forEach body (row :: rest) acc w = after ev (forEach body rest acc' w').
Proof. intros E. simpl. apply bind_normal, E. Qed.

Lemma forIndex_cons {A Acc} (body : nat -> A -> Acc -> Js Acc) (i : nat)
    (row : A) (rest : list A) (acc acc' : Acc) (w w' : World) (ev : list Event) :
  body i row acc w = (Normal acc', w', ev) ->
  forIndex body i (row :: rest) acc w = after ev (forIndex body (S i) rest acc' w').
Proof. intros E. simpl. apply bind_normal, E. Qed.

Lemma forEach_as_forIndex {A Acc} (body : A -> Acc -> Js Acc) (rows : list A) :
  forall i acc w, forEach body rows acc w = forIndex (fun _ => body) i rows acc w.
Proof.
  induction rows as [|row rest IH]; intros i acc w; [reflexivity|].
  simpl. unfold bind. destruct (body row acc w) as [[[acc'|] w1] ev1]; [|reflexivity].
  now rewrite (IH (S i)).
Qed.

Lemma get_record (v : Value) (k : text) (w : World) :
  is_record v = true -> get v k w = (Normal (field v k), w, []).
Proof. destruct v; simpl; intros H; try discriminate; reflexivity. Qed.

Lemma get_not_record (v : Value) (k : text) (w : World) :
  is_record v = false -> get v k w = (Throw, w, []).
Proof. destruct v; simpl; intros H; try discriminate; reflexivity. Qed.

Lemma console_log_run (m : Message) (w : World) :
  console_log m w = spoken ConsoleLog m tt w [].
Proof. unfold console_log, spoken. destruct (printable m); reflexivity. Qed.

Lemma console_error_run (m : Message) (w : World) :
  console_error m w = spoken ConsoleError m tt w [].
Proof. unfold console_error, spoken. destruct (printable m); reflexivity. Qed.

(** *** What a step does to a record, case by case *)

Ltac crunch :=
  repeat (simpl;
          match goal with
          | |- context [if ?b then _ else _] => destruct b eqn:?
          | |- context [match ?x with _ => _ end] => destruct x eqn:?
          end);
  try reflexivity; try congruence.

Lemma createQuestionTopic_run (env : Env) (entry : TopicEntry) (w : World) :
  createQuestionTopic env entry w =
    submitted env w (TopicData entry) (CreatedTopic (te_name entry))
      (FailedToCreate QuestionTopic (te_name entry)) [] true false.
Proof.
  unfold createQuestionTopic, try_catch, submitted, bind, create,
    console_log, console_error, emit, ret, throw, printable.
  simpl.
  destruct (env_create env (store w) (TopicData entry));
    destruct (renderable (te_name entry)); reflexivity.
Qed.

Lemma createQuestionTag_run (env : Env) (entry : TagEntry) (w : World) :
  createQuestionTag env entry w =
    submitted env w (TagData entry) (CreatedTag (ge_name entry) (ge_slug entry))
      (FailedToCreate QuestionTag (ge_name entry)) [] true false.
Proof.
  unfold createQuestionTag, try_catch, submitted, bind, create,
    console_log, console_error, emit, ret, throw, printable.
  simpl.
  destruct (env_create env (store w) (TagData entry));
    destruct (renderable (ge_name entry));
    destruct (renderable (ge_slug entry)); reflexivity.
Qed.

Lemma createQuestion_run (env : Env) (entry : QuestionEntry) (w : World) :
  createQuestion env entry w =
    submitted env w (QuestionData entry) (CreatedQuestion (qe_code entry))
      (FailedToCreate Question (qe_code entry)) [] true false.
Proof.
  unfold createQuestion, try_catch, submitted, bind, create,
    console_log, console_error, emit, ret, throw, printable.
  simpl.
  destruct (env_create env (store w) (QuestionData entry));
    destruct (renderable (qe_code entry)); reflexivity.
Qed.

Lemma stepTopic_outcome (env : Env) (opts : Options) (row : Value)
    (acc : ImportResult) (w : World) :
  stepTopic env opts row acc w = topic_outcome env opts row acc w.
Proof.
  unfold topic_outcome.
  destruct (is_record row) eqn:R; simpl.
  2:{ unfold stepTopic. now rewrite (bind_throw _ _ _ _ _ (get_not_record _ _ _ R)). }
  unfold stepTopic.
  rewrite (bind_normal _ _ _ _ _ _ (get_record _ "name" _ R)), after_nil.
  destruct (truthy (field row "name")) eqn:N; simpl.
  2:{ reflexivity. }
  unfold topic_hits.
  destruct (skipExisting opts); simpl.
  - unfold bind at 1. simpl.
    destruct (0 <? length _) eqn:Hh; simpl.
    + unfold bind, console_log, spoken, printable. simpl.
      destruct (renderable (field row "name")); reflexivity.
    + unfold bind at 1. rewrite (get_record _ "description" _ R).
      destruct (dryRun opts).
      * unfold bind, console_log, spoken, printable. simpl.
        destruct (renderable (field row "name")); reflexivity.
      * unfold bind. rewrite createQuestionTopic_run. unfold submitted, topic_entry. simpl.
        destruct (env_create _ _ _); unfold printable; simpl;
          destruct (renderable (field row "name")); reflexivity.
  - unfold bind at 1. simpl.
    unfold bind at 1. rewrite (get_record _ "description" _ R).
    destruct (dryRun opts).
    * unfold bind, console_log, spoken, printable. simpl.
      destruct (renderable (field row "name")); reflexivity.
    * unfold bind. rewrite createQuestionTopic_run. unfold submitted, topic_entry. simpl.
      destruct (env_create _ _ _); unfold printable; simpl;
        destruct (renderable (field row "name")); reflexivity.
Qed.

Lemma spoken_after {A} (e : Message -> Event) (m : Message) (a : A) (w : World)
    (asked more : list Event) :
  after asked (spoken e m a w more) = spoken e m a w (asked ++ more).
Proof.
  unfold spoken, after, completion, final, events.
  destruct (printable m); simpl; [now rewrite app_assoc | reflexivity].
Qed.

Lemma submitted_after {A} (env : Env) (w : World) (e : Entry) (good bad : Message)
    (asked more : list Event) (yes no : A) :
  after asked (submitted env w e good bad more yes no)
  = submitted env w e good bad (asked ++ more) yes no.
Proof.
  unfold submitted, after, completion, final, events.
  destruct (env_create env (store w) e); destruct (printable good);
    destruct (printable bad); simpl; now rewrite app_assoc.
Qed.

(** The create functions answer a boolean; the loop bodies turn it into a
    counter. *)
Lemma log_then (m : Message) {A} (a : A) (w : World) :
  (console_log m ;; ret a) w = spoken ConsoleLog m a w [].
Proof.
  unfold bind. rewrite console_log_run. unfold spoken.
  destruct (printable m); reflexivity.
Qed.

Lemma error_then (m : Message) {A} (a : A) (w : World) :
  (console_error m ;; ret a) w = spoken ConsoleError m a w [].
Proof.
  unfold bind. rewrite console_error_run. unfold spoken.
  destruct (printable m); reflexivity.
Qed.

Lemma submitted_mapped {A} (env : Env) (w : World) (e : Entry) (good bad : Message)
    (f : bool -> A) :
  bind (fun w => submitted env w e good bad [] true false)
       (fun ok => ret (f ok)) w
  = submitted env w e good bad [] (f true) (f false).
Proof.
  unfold bind, submitted, ret.
  destruct (env_create env (store w) e); destruct (printable good);
    destruct (printable bad); simpl; reflexivity.
Qed.

Lemma createQuestionTopic_counted (env : Env) (entry : TopicEntry) {A}
    (f : bool -> A) (w : World) :
  (let* ok := createQuestionTopic env entry in ret (f ok)) w
  = submitted env w (TopicData entry) (CreatedTopic (te_name entry))
      (FailedToCreate QuestionTopic (te_name entry)) [] (f true) (f false).
Proof.
  rewrite <- submitted_mapped. unfold bind.
  now rewrite createQuestionTopic_run.
Qed.

Lemma createQuestionTag_counted (env : Env) (entry : TagEntry) {A}
    (f : bool -> A) (w : World) :
  (let* ok := createQuestionTag env entry in ret (f ok)) w
  = submitted env w (TagData entry) (CreatedTag (ge_name entry) (ge_slug entry))
      (FailedToCreate QuestionTag (ge_name entry)) [] (f true) (f false).
Proof.
  rewrite <- submitted_mapped. unfold bind.
  now rewrite createQuestionTag_run.
Qed.

Lemma createQuestion_counted (env : Env) (entry : QuestionEntry) {A}
    (f : bool -> A) (w : World) :
  (let* ok := createQuestion env entry in ret (f ok)) w
  = submitted env w (QuestionData entry) (CreatedQuestion (qe_code entry))
      (FailedToCreate Question (qe_code entry)) [] (f true) (f false).
Proof.
  rewrite <- submitted_mapped. unfold bind.
  now rewrite createQuestion_run.
Qed.

Lemma stepTag_outcome (env : Env) (opts : Options) (row : Value)
    (acc : ImportResult) (w : World) :
  stepTag env opts row acc w = tag_outcome env opts row acc w.
Proof.
  unfold tag_outcome.
  destruct (is_record row) eqn:R; simpl.
  2:{ unfold stepTag. now rewrite (bind_throw _ _ _ _ _ (get_not_record _ _ _ R)). }
  unfold stepTag.
  rewrite (bind_normal _ _ _ _ _ _ (get_record _ "name" _ R)), after_nil.
  destruct (truthy (field row "name")) eqn:N; simpl; [|reflexivity].
  rewrite (bind_normal _ _ _ _ _ _ (get_record _ "slug" _ R)), after_nil.
  assert ((if truthy (field row "slug") then ret (field row "slug")
           else let* s := js_generateSlug env (field row "name") in ret (JStr s)) w
          = if negb (truthy (field row "slug")) && negb (isString (field row "name"))
            then (Throw, w, [])
            else (Normal (slug_of env row), w, [])) as Eslug.
  { unfold slug_of. destruct (truthy (field row "slug")); simpl; [reflexivity|].
    destruct (field row "name"); reflexivity. }
  destruct (negb (truthy (field row "slug")) && negb (isString (field row "name"))).
  { now rewrite (bind_throw _ _ _ _ _ Eslug). }
  rewrite (bind_normal _ _ _ _ _ _ Eslug), after_nil.
  set (name := field row "name"). set (slug := slug_of env row).
  set (asked := if skipExisting opts
                then [FindMany QuestionTag (NameEq name) (tag_name_hits w name);
                      FindMany QuestionTag (SlugEq slug) (tag_slug_hits w slug)]
                else []).
  assert ((if skipExisting opts then checkExistingTag name slug else ret false) w
          = (Normal (skipExisting opts
                     && ((0 <? tag_name_hits w name) || (0 <? tag_slug_hits w slug))),
             w, asked)) as Echeck.
  { subst asked. destruct (skipExisting opts); reflexivity. }
  rewrite (bind_normal _ _ _ _ _ _ Echeck).
  destruct (skipExisting opts && _).
  - now rewrite log_then, spoken_after, app_nil_r.
  - destruct (dryRun opts).
    + now rewrite log_then, spoken_after, app_nil_r.
    + rewrite (createQuestionTag_counted env _
                 (fun ok : bool => if ok then incr_created acc else incr_failed acc)).
      now rewrite submitted_after, app_nil_r.
Qed.

Lemma codeFor_record (env : Env) (i : nat) (q : Value) (w : World) :
  is_record q = true -> codeFor env i q w = (Normal (code_of env i q), w, []).
Proof.
  intros R. unfold codeFor.
  rewrite (bind_normal _ _ _ _ _ _ (get_record _ _ _ R)), after_nil.
  reflexivity.
Qed.

Lemma codeFor_not_record (env : Env) (i : nat) (q : Value) (w : World) :
  is_record q = false -> codeFor env i q w = (Throw, w, []).
Proof.
  intros R. unfold codeFor.
  now rewrite (bind_throw _ _ _ _ _ (get_not_record _ _ _ R)).
Qed.

Ltac read_field R :=
  rewrite (bind_normal _ _ _ _ _ _ (get_record _ _ _ R)), after_nil; cbv beta.

(** *** Reference resolution *)

Lemma documentId_of_filled `{Document D} (s : Slot D) (w : World) :
  filled s = true -> documentId_of s w = (Normal (id_of s), w, []).
Proof.
  destruct s as [d|v|]; simpl; intros F; try reflexivity.
  apply get_record. destruct v; simpl in *; congruence.
Qed.

Lemma documentIds_filled (found : list (Slot TagDoc)) (w : World) :
  forallb filled found = true ->
  documentIds found w = (Normal (map id_of found), w, []).
Proof.
  induction found as [|t rest IH]; simpl; intros F; [reflexivity|].
  apply andb_prop in F as [Ft Fr].
  rewrite (bind_normal _ _ _ _ _ _ (documentId_of_filled t w Ft)), after_nil.
  rewrite (bind_normal _ _ _ _ _ _ (IH Fr)), after_nil. reflexivity.
Qed.

Lemma collectTags_strings (env : Env) (w : World) (names : list Value) :
  forallb isString names = true ->
  forall found,
    collectTags env names found w
    = (Normal (found ++ cached_tags env w names), w, []).
Proof.
  induction names as [|name rest IH]; intros Hs found; simpl.
  - now rewrite app_nil_r.
  - simpl in Hs. apply andb_prop in Hs as [Hn Hr].
    destruct name; try discriminate Hn.
    unfold bind at 1. simpl. unfold bind at 1. simpl.
    unfold cached_tags, tag_slot. simpl.
    destruct (filled (lookup_key (tagsCache w) (env_toLowerCase env s))); simpl.
    + rewrite (IH Hr). unfold cached_tags, tag_slot. now rewrite <- app_assoc.
    + rewrite (IH Hr). reflexivity.
Qed.

(** [collectTags] stops at the first name that is not a string. *)
Lemma collectTags_throws (env : Env) (w : World) (names : list Value) :
  forallb isString names = false ->
  forall found, collectTags env names found w = (Throw, w, []).
Proof.
  induction names as [|name rest IH]; intros Hs found; simpl in *;
    [discriminate Hs|].
  destruct (isString name) eqn:Hn; simpl in Hs.
  - destruct name; try discriminate Hn.
    unfold bind at 1. simpl. unfold bind at 1. simpl.
    destruct (filled _); rewrite (IH Hs); reflexivity.
  - destruct name; try discriminate Hn; reflexivity.
Qed.

Lemma trackMissingTags_strings (env : Env) (w : World) (names : list Value) :
  forallb isString names = true ->
  forall missing,
    trackMissingTags env names missing w
    = (Normal (uncached_tags env w names missing), w, []).
Proof.
  induction names as [|name rest IH]; intros Hs missing; simpl.
  - reflexivity.
  - simpl in Hs. apply andb_prop in Hs as [Hn Hr].
    destruct name; try discriminate Hn.
    unfold bind at 1. simpl. unfold bind at 1. simpl.
    unfold uncached_tags, tag_slot. simpl.
    destruct (filled _); rewrite (IH Hr); reflexivity.
Qed.

Lemma cached_tags_filled (env : Env) (w : World) (names : list Value) :
  forallb filled (cached_tags env w names) = true.
Proof.
  unfold cached_tags. apply forallb_forall. intros s Hs.
  apply filter_In in Hs. tauto.
Qed.

Lemma strings_renderable (names : list Value) :
  forallb isString names = true -> forallb renderable names = true.
Proof.
  intros H. apply forallb_forall. intros v Hv.
  apply string_renderable. rewrite forallb_forall in H. auto.
Qed.

(** The lookup of the topic: it throws when the topic is truthy and not a
    string. *)
Lemma link_topic_run (env : Env) (topic : Value) (missing : list text) (w : World) :
  (if truthy topic then
     let* hit := findTopicByName env topic in
     if filled hit then
       let* topicId := documentId_of hit in ret (topicId, missing)
     else ret (JNull, set_add (text_of topic) missing)
   else ret (JNull, missing)) w
  = if negb (truthy topic) || isString topic
    then (Normal (topic_link env w topic missing), w, [])
    else (Throw, w, []).
Proof.
  unfold topic_link, topic_slot, findTopicByName.
  destruct (truthy topic) eqn:T; [|reflexivity]. simpl.
  destruct topic; try reflexivity. simpl.
  unfold bind at 1. simpl.
  destruct (filled (lookup_key (topicsCache w) (env_toLowerCase env s))) eqn:F;
    simpl.
  - rewrite F. rewrite (bind_normal _ _ _ _ _ _ (documentId_of_filled _ w F)).
    reflexivity.
  - reflexivity.
Qed.

Lemma link_tags_run (env : Env) (labels : Value) (missing : list text) (w : World) :
  (if truthy labels && isArray labels then
     let* found := findTagsByNames env labels in
     let* tagIds := documentIds found in
     let* missing' := trackMissingTags env (items_of labels) missing in
     ret (tagIds, missing')
   else ret ([], missing)) w
  = if truthy labels && isArray labels && negb (forallb isString (items_of labels))
    then (Throw, w, [])
    else (Normal (tag_links env w labels missing), w, []).
Proof.
  unfold tag_links.
  destruct (truthy labels && isArray labels) eqn:T; [|reflexivity].
  apply andb_prop in T as [_ Ta].
  destruct labels as [| | | | |items|]; try discriminate Ta. simpl.
  destruct (forallb isString items) eqn:Hs; simpl.
  - rewrite (bind_normal _ _ _ _ _ _ (collectTags_strings env w items Hs [])), after_nil.
    simpl.
    rewrite (bind_normal _ _ _ _ _ _
               (documentIds_filled _ w (cached_tags_filled env w items))), after_nil.
    rewrite (bind_normal _ _ _ _ _ _ (trackMissingTags_strings env w items Hs _)),
      after_nil.
    reflexivity.
  - now rewrite (bind_throw _ _ _ _ _ (collectTags_throws env w items Hs [])).
Qed.

Lemma optional_join_run (labels : Value) (w : World) :
  optional_join labels w
  = if nullish labels || (isArray labels && forallb renderable (items_of labels))
    then (Normal tt, w, []) else (Throw, w, []).
Proof.
  destruct labels; simpl; try reflexivity.
  destruct (forallb renderable items); reflexivity.
Qed.

Lemma linkAndSubmit_outcome (env : Env) (opts : Options) (q code : Value)
    (acc : Progress) (w : World) :
  is_record q = true ->
  linkAndSubmit env opts q code acc w =
    if negb (names_ok (dryRun opts) q) then (Throw, w, [])
    else
      let acc' := linked_progress env w q acc in
      if dryRun opts then
        spoken ConsoleLog
          (WouldCreateQuestion code (js_or (field q "topic") (JStr "none"))
             (field q "tags"))
          (count incr_created acc') w []
      else
        submitted env w (QuestionData (question_entry env w q code acc))
          (CreatedQuestion code) (FailedToCreate Question code)
          [] (count incr_created acc') (count incr_failed acc').
Proof.
  intros R. unfold names_ok, linkAndSubmit.
  read_field R.
  pose proof (link_topic_run env (field q "topic") (missingTopics acc) w) as Elink.
  destruct (negb (truthy (field q "topic")) || isString (field q "topic")); simpl.
  2:{ now rewrite (bind_throw _ _ _ _ _ Elink). }
  rewrite (bind_normal _ _ _ _ _ _ Elink), after_nil. cbv beta.
  read_field R.
  pose proof (link_tags_run env (field q "tags") (missingTags acc) w) as Etag.
  destruct (truthy (field q "tags") && isArray (field q "tags")) eqn:T; simpl in *.
  - destruct (forallb isString (items_of (field q "tags"))) eqn:Hs; simpl in *.
    2:{ now rewrite (bind_throw _ _ _ _ _ Etag). }
    rewrite (bind_normal _ _ _ _ _ _ Etag), after_nil. cbv beta.
    do 5 read_field R. cbv zeta.
    destruct (dryRun opts) eqn:D.
    + assert (optional_join (field q "tags") w = (Normal tt, w, [])) as Ej.
      { rewrite optional_join_run.
        apply andb_prop in T as [_ Ta]. rewrite Ta.
        rewrite (strings_renderable _ Hs). now rewrite orb_true_r. }
      rewrite (bind_normal _ _ _ _ _ _ Ej), after_nil.
      now rewrite log_then.
    + rewrite (createQuestion_counted env _
                 (fun ok : bool => count (if ok then incr_created else incr_failed) _)).
      reflexivity.
  - rewrite (bind_normal _ _ _ _ _ _ Etag), after_nil. cbv beta.
    do 5 read_field R. cbv zeta.
    destruct (dryRun opts) eqn:D; simpl.
    + pose proof (optional_join_run (field q "tags") w) as Ej.
      assert (isArray (field q "tags") && forallb renderable (items_of (field q "tags"))
              = false) as Ea.
      { destruct (field q "tags"); try reflexivity. simpl in T. discriminate T. }
      rewrite Ea, orb_false_r in Ej.
      destruct (nullish (field q "tags")) eqn:Nu; simpl.
      * rewrite (bind_normal _ _ _ _ _ _ Ej), after_nil.
        now rewrite log_then.
      * now rewrite (bind_throw _ _ _ _ _ Ej).
    + rewrite (createQuestion_counted env _
                 (fun ok : bool => count (if ok then incr_created else incr_failed) _)).
      reflexivity.
Qed.

Lemma stepQuestion_record (env : Env) (opts : Options) (i : nat) (q : Value)
    (acc : Progress) (w : World) :
  is_record q = true ->
  stepQuestion env opts i q acc w =
    let code := code_of env i q in
    let supplied := field q "code" in
    let n := question_hits w supplied in
    if negb (truthy (field q "question")) then
      (Normal (count incr_failed acc), w, [ConsoleError (MissingQuestionText i)])
    else if no_items (field q "answers") then
      spoken ConsoleError (InvalidAnswers code) (count incr_failed acc) w []
    else if no_items (field q "correctAnswer") then
      spoken ConsoleError (InvalidCorrectAnswer code) (count incr_failed acc) w []
    else if skipExisting opts && truthy supplied then
      if 0 <? n then
        spoken ConsoleLog (SkippingExisting Question code) (count incr_skipped acc) w
          [FindMany Question (CodeEq supplied) n]
      else after [FindMany Question (CodeEq supplied) n]
                 (linkAndSubmit env opts q code acc w)
    else linkAndSubmit env opts q code acc w.
Proof.
  intros R. unfold stepQuestion. cbv zeta.
  rewrite (bind_normal _ _ _ _ _ _ (codeFor_record _ _ _ _ R)), after_nil.
  read_field R.
  destruct (negb (truthy (field q "question"))); [reflexivity|].
  read_field R.
  destruct (no_items (field q "answers")); [now rewrite error_then|].
  read_field R.
  destruct (no_items (field q "correctAnswer")); [now rewrite error_then|].
  read_field R.
  destruct (skipExisting opts && truthy (field q "code")) eqn:S.
  - assert (truthy (field q "code") = true) as T
      by (apply andb_prop in S; tauto).
    assert (checkExistingQuestion (field q "code") w =
            (Normal (0 <? question_hits w (field q "code")), w,
             [FindMany Question (CodeEq (field q "code"))
                (question_hits w (field q "code"))])) as E.
    { unfold checkExistingQuestion. rewrite T. reflexivity. }
    rewrite (bind_normal _ _ _ _ _ _ E).
    destruct (0 <? question_hits w (field q "code")).
    + now rewrite log_then, spoken_after, app_nil_r.
    + reflexivity.
  - rewrite (bind_normal _ _ _ _ _ _ (eq_refl : ret false w = (Normal false, w, []))).
    rewrite after_nil. reflexivity.
Qed.

Lemma stepQuestion_outcome (env : Env) (opts : Options) (i : nat) (row : Value)
    (acc : Progress) (w : World) :
  stepQuestion env opts i row acc w = question_outcome env opts i row acc w.
Proof.
  unfold question_outcome.
  destruct (is_record row) eqn:R; simpl.
  2:{ unfold stepQuestion.
      now rewrite (bind_throw _ _ _ _ _ (codeFor_not_record _ _ _ _ R)). }
  rewrite (stepQuestion_record _ _ _ _ _ _ R). cbv zeta.
  destruct (negb (truthy (field row "question"))); [reflexivity|].
  destruct (no_items (field row "answers")); [reflexivity|].
  destruct (no_items (field row "correctAnswer")); [reflexivity|].
  rewrite (linkAndSubmit_outcome _ _ _ _ _ _ R). cbv zeta.
  destruct (skipExisting opts && truthy (field row "code")); simpl.
  - destruct (0 <? question_hits w (field row "code")); [reflexivity|].
    destruct (negb (names_ok (dryRun opts) row)); [reflexivity|].
    destruct (dryRun opts).
    + now rewrite spoken_after, app_nil_r.
    + now rewrite submitted_after, app_nil_r.
  - reflexivity.
Qed.

(** *** The runs on an array *)

Lemma announce_run (k : Kind) (opts : Options) (n : nat) (w : World) :
  announce k opts n w = (Normal tt, w, announced k opts n).
Proof. unfold announce, announced. destruct (dryRun opts); reflexivity. Qed.

Lemma importQuestionTopics_array (env : Env) (opts : Options)
    (rows : list Value) (w : World) :
  importQuestionTopics env opts (FileJson (JArr rows)) w =
    after (announced QuestionTopic opts (length rows)) (topics_loop env opts rows w).
Proof.
  unfold importQuestionTopics.
  rewrite (bind_normal _ _ _ _ _ _ (announce_run _ _ _ w)). reflexivity.
Qed.

Lemma importQuestionTags_array (env : Env) (opts : Options)
    (rows : list Value) (w : World) :
  importQuestionTags env opts (FileJson (JArr rows)) w =
    after (announced QuestionTag opts (length rows)) (tags_loop env opts rows w).
Proof.
  unfold importQuestionTags.
  rewrite (bind_normal _ _ _ _ _ _ (announce_run _ _ _ w)). reflexivity.
Qed.

Lemma loadTopicsCache_run (env : Env) (w : World) :
  loadTopicsCache env w =
    (Normal tt,
     {| store := store w;
        topicsCache := topicsCache (loaded env w);
        tagsCache := tagsCache w |},
     [FindMany QuestionTopic StatusPublished
        (length (List.filter topic_published (topics (store w))));
      ConsoleLog (CacheLoaded QuestionTopic
                    (size (own (topicsCache (loaded env w)))))]).
Proof. reflexivity. Qed.

Lemma loadTagsCache_run (env : Env) (w : World) :
  loadTagsCache env w =
    (Normal tt,
     {| store := store w;
        topicsCache := topicsCache w;
        tagsCache := tagsCache (loaded env w) |},
     [FindMany QuestionTag StatusPublished
        (length (List.filter tag_published (tags (store w))));
      ConsoleLog (CacheLoaded QuestionTag
                    (size (own (tagsCache (loaded env w)))))]).
Proof. reflexivity. Qed.

Lemma importQuestions_array (env : Env) (opts : Options)
    (rows : list Value) (w : World) :
  importQuestions env opts (FileJson (JArr rows)) w =
    after (cache_events env w ++ announced Question opts (length rows))
      (bind (questions_loop env opts rows) finish (loaded env w)).
Proof.
  unfold importQuestions.
  rewrite (bind_normal _ _ _ _ _ _ (loadTopicsCache_run env w)).
  rewrite (bind_normal _ _ _ _ _ _ (loadTagsCache_run env _)).
  rewrite (bind_normal _ _ _ _ _ _ (announce_run _ _ _ _)).
  rewrite !after_after. reflexivity.
Qed.

Lemma reportMissing_run (p : Progress) (w : World) :
  reportMissing p w = (Normal tt, w, report_events p).
Proof.
  unfold reportMissing, report_events, bind.
  destruct (0 <? length (missingTopics p)), (0 <? length (missingTags p));
    reflexivity.
Qed.

Lemma finish_run (p : Progress) (w : World) :
  finish p w = (Normal (counts p), w, report_events p).
Proof.
  unfold finish.
  rewrite (bind_normal _ _ _ _ _ _ (reportMissing_run p w)).
  unfold after, ret, completion, final, events. simpl. now rewrite app_nil_r.
Qed.

Lemma questions_loop_then_finish (env : Env) (opts : Options)
    (rows : list Value) (w w' : World) (p : Progress) (ev : list Event) :
  questions_loop env opts rows w = (Normal p, w', ev) ->
  bind (questions_loop env opts rows) finish w
  = (Normal (counts p), w', ev ++ report_events p).
Proof.
  intros E. rewrite (bind_normal _ _ _ _ _ _ E), finish_run. reflexivity.
Qed.

Lemma questions_loop_throws (env : Env) (opts : Options)
    (rows : list Value) (w : World) :
  completion (questions_loop env opts rows w) = Throw ->
  completion (bind (questions_loop env opts rows) finish w) = Throw.
Proof.
  unfold bind, completion.
  destruct (questions_loop env opts rows w) as [[[p|] w'] ev]; simpl;
    [discriminate | reflexivity].
Qed.

(** *** Rows the loop bodies can process *)

Lemma spoken_cases {A} (e : Message -> Event) (m : Message) (a : A) (w : World)
    (asked : list Event) :
  (printable m = true /\ spoken e m a w asked = (Normal a, w, asked ++ [e m]))
  \/ (printable m = false /\ spoken e m a w asked = (Throw, w, asked)).
Proof. unfold spoken. destruct (printable m); auto. Qed.

Lemma one_more_total (r r' : ImportResult) : one_more r r' -> total r' = S (total r).
Proof. intros [-> | [-> | ->]]; unfold total; simpl; lia. Qed.

Lemma topic_step_settles (env : Env) (opts : Options) (row : Value)
    (acc : ImportResult) (w : World) :
  if topic_row_ok row
  then exists acc', completion (stepTopic env opts row acc w) = Normal acc'
                    /\ one_more acc acc'
  else completion (stepTopic env opts row acc w) = Throw.
Proof.
  rewrite stepTopic_outcome. unfold topic_outcome, topic_row_ok.
  destruct (is_record row); simpl; [|reflexivity].
  destruct (truthy (field row "name")); simpl.
  2:{ eexists. split; [reflexivity|]. right. right. reflexivity. }
  unfold spoken, submitted, printable. simpl.
  destruct (renderable (field row "name")); simpl;
    destruct (skipExisting opts && _); simpl; try reflexivity;
    try (eexists; split; [reflexivity|]; unfold one_more; tauto);
    destruct (dryRun opts); try reflexivity;
    try (eexists; split; [reflexivity|]; unfold one_more; tauto);
    destruct (env_create _ _ _); try reflexivity;
    eexists; (split; [reflexivity|]); unfold one_more; tauto.
Qed.

Lemma tag_step_settles (env : Env) (opts : Options) (row : Value)
    (acc : ImportResult) (w : World) :
  if tag_row_ok env opts w row
  then exists acc', completion (stepTag env opts row acc w) = Normal acc'
                    /\ one_more acc acc'
  else completion (stepTag env opts row acc w) = Throw.
Proof.
  rewrite stepTag_outcome. unfold tag_outcome, tag_row_ok, tag_is_there.
  destruct (is_record row); simpl; [|reflexivity].
  destruct (truthy (field row "name")); simpl.
  2:{ eexists. split; [reflexivity|]. right. right. reflexivity. }
  destruct (truthy (field row "slug")); simpl.
  - unfold spoken, submitted, printable. simpl.
    destruct (renderable (field row "name")); simpl;
      destruct (skipExisting opts && _); simpl; try reflexivity;
      try (eexists; split; [reflexivity|]; unfold one_more; tauto);
      destruct (dryRun opts); simpl; try reflexivity;
      try (destruct (renderable (slug_of env row)); simpl; try reflexivity;
           eexists; (split; [reflexivity|]); unfold one_more; tauto);
      destruct (env_create _ _ _); try reflexivity;
      try (destruct (renderable (slug_of env row)); simpl);
      eexists; (split; [reflexivity|]); unfold one_more; tauto.
  - destruct (isString (field row "name")); simpl; [|reflexivity].
    unfold spoken, submitted, printable. simpl.
    destruct (renderable (field row "name")); simpl;
      destruct (skipExisting opts && _); simpl; try reflexivity;
      try (eexists; split; [reflexivity|]; unfold one_more; tauto);
      destruct (dryRun opts); simpl; try reflexivity;
      try (destruct (renderable (slug_of env row)); simpl; try reflexivity;
           eexists; (split; [reflexivity|]); unfold one_more; tauto);
      destruct (env_create _ _ _); try reflexivity;
      try (destruct (renderable (slug_of env row)); simpl);
      eexists; (split; [reflexivity|]); unfold one_more; tauto.
Qed.

Lemma code_of_renderable (env : Env) (i : nat) (row : Value) :
  renderable (code_of env i row) = renderable (field row "code").
Proof.
  unfold code_of. destruct (truthy (field row "code")) eqn:T; [reflexivity|].
  now rewrite (falsy_renderable _ T).
Qed.

Lemma named_renderable (row : Value) :
  names_ok true row = true ->
  renderable (js_or (field row "topic") (JStr "none")) = true
  /\ renderable (field row "tags") = true.
Proof.
  unfold names_ok, js_or. intros H. apply andb_prop in H as [Ht Hg]. split.
  - destruct (truthy (field row "topic")); [|reflexivity].
    apply string_renderable. exact Ht.
  - destruct (truthy (field row "tags") && isArray (field row "tags")) eqn:T.
    + apply andb_prop in T as [_ Ta].
      destruct (field row "tags"); try discriminate Ta.
      simpl in *. now apply strings_renderable.
    + simpl in Hg. destruct (field row "tags"); try discriminate Hg; reflexivity.
Qed.

Lemma would_create_question_printable (env : Env) (i : nat) (row : Value) :
  names_ok true row = true ->
  printable (WouldCreateQuestion (code_of env i row)
               (js_or (field row "topic") (JStr "none")) (field row "tags"))
  = renderable (field row "code").
Proof.
  intros H. destruct (named_renderable row H) as [Ht Hg].
  unfold printable. simpl. rewrite Ht, Hg, code_of_renderable.
  now rewrite !andb_true_r.
Qed.

Lemma question_step_settles (env : Env) (opts : Options) (i : nat) (row : Value)
    (acc : Progress) (w : World) :
  if question_row_ok opts w row
  then exists acc', completion (stepQuestion env opts i row acc w) = Normal acc'
                    /\ one_more (counts acc) (counts acc')
  else completion (stepQuestion env opts i row acc w) = Throw.
Proof.
  rewrite stepQuestion_outcome.
  unfold question_outcome, question_row_ok, question_is_there.
  destruct (is_record row); simpl; [|reflexivity].
  destruct (truthy (field row "question")); simpl.
  2:{ eexists. split; [reflexivity|]. right. right. reflexivity. }
  assert (forall k, printable (InvalidAnswers (code_of env i row)) = renderable (field row "code")
                    /\ printable (InvalidCorrectAnswer (code_of env i row))
                       = renderable (field row "code")
                    /\ printable (SkippingExisting k (code_of env i row))
                       = renderable (field row "code")
                    /\ printable (CreatedQuestion (code_of env i row))
                       = renderable (field row "code")
                    /\ printable (FailedToCreate k (code_of env i row))
                       = renderable (field row "code")) as P.
  { intros k. unfold printable. simpl.
    rewrite code_of_renderable, andb_true_r. auto. }
  destruct (P Question) as (P1 & P2 & P3 & P4 & P5).
  pose proof (would_create_question_printable env i row) as P6.
  unfold spoken, submitted. rewrite P1, P2, P3, P4, P5.
  destruct (no_items (field row "answers")); simpl.
  { rewrite andb_true_r.
    destruct (renderable (field row "code")); [|reflexivity].
    eexists. split; [reflexivity|]. right. right. reflexivity. }
  destruct (no_items (field row "correctAnswer")); simpl.
  { rewrite andb_true_r.
    destruct (renderable (field row "code")); [|reflexivity].
    eexists. split; [reflexivity|]. right. right. reflexivity. }
  destruct (skipExisting opts && truthy (field row "code")
            && (0 <? question_hits w (field row "code"))); simpl.
  { rewrite andb_true_r.
    destruct (renderable (field row "code")); [|reflexivity].
    eexists. split; [reflexivity|]. right. left. reflexivity. }
  destruct (names_ok (dryRun opts) row) eqn:Hn; simpl.
  2:{ rewrite andb_false_r. reflexivity. }
  rewrite andb_true_r.
  destruct (dryRun opts) eqn:D.
  - rewrite (P6 Hn).
    destruct (renderable (field row "code")); [|reflexivity].
    eexists. split; [reflexivity|]. left. reflexivity.
  - destruct (env_create _ _ _);
      (destruct (renderable (field row "code")); [|reflexivity]);
      eexists; (split; [reflexivity|]); unfold one_more; simpl; tauto.
Qed.

(** *** Loops *)

Section Loop.

Context {A Acc : Type}.

Variable body : nat -> A -> Acc -> Js Acc.

Variable ok : World -> A -> bool.

Variable size : Acc -> nat.

Hypothesis body_settles : forall i row acc w,
  if ok w row
  then exists acc', completion (body i row acc w) = Normal acc'
                    /\ size acc' = S (size acc)
  else completion (body i row acc w) = Throw.

Lemma forIndex_snoc (i : nat) (pre : list A) (row : A) (acc acc1 : Acc)
    (w w1 : World) (ev1 : list Event) :
  forIndex body i pre acc w = (Normal acc1, w1, ev1) ->
  forIndex body i (pre ++ [row]) acc w
  = after ev1 (body (i + length pre) row acc1 w1).
Proof.
  revert i acc w ev1. induction pre as [|x pre IH]; intros i acc w ev1 E.
  - simpl in E. injection E as <- <- <-. simpl.
    rewrite Nat.add_0_r. unfold bind, after, completion, final, events.
    destruct (body i row acc w) as [[[a|] w2] ev2]; simpl;
      now rewrite ?app_nil_r.
  - simpl in E. simpl. unfold bind in *.
    destruct (body i x acc w) as [[[a|] w2] ev2]; [|discriminate E].
    destruct (forIndex body (S i) pre a w2) as [[r w3] ev3] eqn:E3.
    injection E as -> -> <-.
    rewrite (IH _ _ _ _ E3). unfold after, completion, final, events. simpl.
    replace (i + S (length pre)) with (S (i + length pre)) by lia.
    destruct (body (S (i + length pre)) row acc1 w1) as [[c w4] ev4]. simpl.
    now rewrite List.app_assoc.
Qed.

(** Either the loop goes through all the rows, each of them processable
    when reached, or it stops at the first row that is not. *)
Lemma forIndex_settles (rows : list A) :
  forall i acc w,
    (exists acc' w' ev,
        forIndex body i rows acc w = (Normal acc', w', ev)
        /\ size acc' = size acc + length rows
        /\ forall pre row post, rows = pre ++ row :: post ->
             exists acc1 w1 ev1,
               forIndex body i pre acc w = (Normal acc1, w1, ev1)
               /\ size acc1 = size acc + length pre /\ ok w1 row = true)
    \/ (completion (forIndex body i rows acc w) = Throw
        /\ exists pre row post acc1 w1 ev1,
             rows = pre ++ row :: post
             /\ forIndex body i pre acc w = (Normal acc1, w1, ev1)
             /\ size acc1 = size acc + length pre /\ ok w1 row = false).
Proof.
  induction rows as [|row rest IH]; intros i acc w.
  - left. exists acc, w, []. split; [reflexivity|]. split; [simpl; lia|].
    intros pre row post E. destruct pre; discriminate E.
  - pose proof (body_settles i row acc w) as Hb.
    destruct (ok w row) eqn:Hok.
    + destruct Hb as (acc1 & Hc & Hs).
      destruct (body i row acc w) as [[c w1] ev1] eqn:Eb.
      unfold completion in Hc. simpl in Hc. subst c.
      destruct (IH (S i) acc1 w1)
        as [(acc' & w' & ev & E & Hn & Hall)
           | (Ht & pre & r & post & acc2 & w2 & ev2 & -> & E & Hn & Hbad)].
      * left. exists acc', w', (ev1 ++ ev).
        split. { rewrite (forIndex_cons _ _ _ _ _ _ _ _ _ Eb), E. reflexivity. }
        split. { simpl. lia. }
        intros pre r post Erows. destruct pre as [|x pre].
        -- injection Erows as <- <-. exists acc, w, []. simpl.
           repeat split; [lia | exact Hok].
        -- injection Erows as <- ->.
           destruct (Hall pre r post eq_refl) as (a & w2 & ev2 & E2 & Hn2 & Hok2).
           exists a, w2, (ev1 ++ ev2).
           split. { rewrite (forIndex_cons _ _ _ _ _ _ _ _ _ Eb), E2. reflexivity. }
           split; [simpl; lia | exact Hok2].
      * right. split.
        { rewrite (forIndex_cons _ _ _ _ _ _ _ _ _ Eb). exact Ht. }
        exists (row :: pre), r, post, acc2, w2, (ev1 ++ ev2).
        split; [reflexivity|].
        split. { rewrite (forIndex_cons _ _ _ _ _ _ _ _ _ Eb), E. reflexivity. }
        split; [simpl; lia | exact Hbad].
    + right. split.
      { simpl. unfold bind, completion in *.
        destruct (body i row acc w) as [[c w1] ev1]. simpl in Hb. now subst c. }
      exists [], row, rest, acc, w, []. repeat split; [simpl; lia | exact Hok].
Qed.

End Loop.

Lemma settles_sized {Acc} (proj : Acc -> ImportResult) (c : Completion Acc)
    (acc : Acc) (b : bool) :
  (if b then exists acc', c = Normal acc' /\ one_more (proj acc) (proj acc')
   else c = Throw) ->
  if b then exists acc', c = Normal acc' /\ total (proj acc') = S (total (proj acc))
  else c = Throw.
Proof.
  destruct b; [|trivial]. intros (acc' & Hc & Hm).
  exists acc'. split; [exact Hc | apply one_more_total, Hm].
Qed.

(** The dichotomy of a loop, in the words of [settled]. *)
Lemma loop_settled {Acc} (loop : list Value -> Js Acc)
    (body : nat -> Value -> Acc -> Js Acc)
    (ok : World -> Value -> bool) (proj : Acc -> ImportResult) (start : Acc)
    (rows : list Value) (w : World) :
  (forall pre w, loop pre w = forIndex body 0 pre start w) ->
  (forall i row acc w,
     if ok w row
     then exists acc', completion (body i row acc w) = Normal acc'
                       /\ one_more (proj acc) (proj acc')
     else completion (body i row acc w) = Throw) ->
  total (proj start) = 0 ->
  settled loop ok (fun acc => total (proj acc)) w rows
    match loop rows w with
    | (Normal acc, _, _) => Normal (proj acc)
    | _ => Throw
    end.
Proof.
  intros Hloop Hbody Hstart. unfold settled, reaches.
  destruct (forIndex_settles body ok (fun acc => total (proj acc))
              (fun i row acc w1 => settles_sized proj _ acc _ (Hbody i row acc w1))
              rows 0 start w) as [H | H].
  - left. destruct H as (acc' & w' & ev & E & Hn & Hall).
    rewrite Hloop, E. exists (proj acc'). split; [reflexivity|]. split; [lia|].
    intros pre row post Erows.
    destruct (Hall pre row post Erows) as (a & w1 & ev1 & E1 & Hn1 & Hok).
    exists a, w1. split; [exists ev1; now rewrite Hloop|]. split; [lia | exact Hok].
  - right. destruct H as (Ht & pre & row & post & a & w1 & ev1 & -> & E1 & Hn1 & Hbad).
    split.
    { rewrite Hloop. unfold completion in Ht.
      destruct (forIndex body 0 _ start w) as [[c w'] ev]. simpl in Ht.
      now subst c. }
    exists pre, row, post, a, w1. split; [reflexivity|].
    split; [exists ev1; now rewrite Hloop|]. split; [lia | exact Hbad].
Qed.

Lemma completion_projected {Acc} (proj : Acc -> ImportResult)
    (r : Completion Acc * World * list Event) :
  match r with (Normal acc, _, _) => Normal (proj acc) | _ => Throw end
  = match completion r with Normal acc => Normal (proj acc) | Throw => Throw end.
Proof. destruct r as [[[acc|] w] ev]; reflexivity. Qed.

Lemma topics_settled (env : Env) (opts : Options) (rows : list Value) (w : World) :
  settled (topics_loop env opts) (fun _ => topic_row_ok) total w rows
    (completion (importQuestionTopics env opts (FileJson (JArr rows)) w)).
Proof.
  rewrite importQuestionTopics_array, completion_after.
  pose proof (loop_settled (topics_loop env opts) (fun _ => stepTopic env opts)
                (fun _ => topic_row_ok) (fun r => r) zeroResult rows w
                (fun pre w1 => forEach_as_forIndex _ pre 0 zeroResult w1)
                (fun _ row acc w1 => topic_step_settles env opts row acc w1)
                eq_refl) as H.
  rewrite completion_projected in H.
  destruct (completion (topics_loop env opts rows w)); exact H.
Qed.

Lemma tags_settled (env : Env) (opts : Options) (rows : list Value) (w : World) :
  settled (tags_loop env opts) (tag_row_ok env opts) total w rows
    (completion (importQuestionTags env opts (FileJson (JArr rows)) w)).
Proof.
  rewrite importQuestionTags_array, completion_after.
  pose proof (loop_settled (tags_loop env opts) (fun _ => stepTag env opts)
                (tag_row_ok env opts) (fun r => r) zeroResult rows w
                (fun pre w1 => forEach_as_forIndex _ pre 0 zeroResult w1)
                (fun _ row acc w1 => tag_step_settles env opts row acc w1)
                eq_refl) as H.
  rewrite completion_projected in H.
  destruct (completion (tags_loop env opts rows w)); exact H.
Qed.

Lemma questions_settled (env : Env) (opts : Options) (rows : list Value) (w : World) :
  settled (questions_loop env opts) (question_row_ok opts)
    (fun p => total (counts p)) (loaded env w) rows
    (completion (importQuestions env opts (FileJson (JArr rows)) w)).
Proof.
  rewrite importQuestions_array, completion_after.
  pose proof (loop_settled (questions_loop env opts) (stepQuestion env opts)
                (question_row_ok opts) counts startProgress rows (loaded env w)
                (fun pre w1 => eq_refl)
                (fun i row acc w1 => question_step_settles env opts i row acc w1)
                eq_refl) as H.
  destruct (questions_loop env opts rows (loaded env w)) as [[[p|] w'] ev] eqn:E.
  - now rewrite (questions_loop_then_finish _ _ _ _ _ _ _ E).
  - rewrite questions_loop_throws; [exact H | now rewrite E].
Qed.

(** ** The counters partition the rows *)

(** C10 (amended): on a top-level array, a row the loop body can process
    moves exactly one of the three counters up by one, and a row it cannot
    process ends the run with a [TypeError]: a [null] row; a truthy name,
    slug or code that has no string conversion where a message prints it; a
    tag without slug whose name is not a string; a question that gets as
    far as its references and whose topic or tag name is not a string, or
    whose [tags] is neither absent nor an array in a dry run.  So the run
    either returns a result with created + skipped + failed the number of
    rows, every row having been processable in the world in which the loop
    reached it, or it stops at the first row that is not, with no result. *)
Theorem counters_partition_readable_rows (env : Env) (opts : Options)
    (w : World) (rows : list Value) :
  (forall row acc w1,
     if topic_row_ok row
     then exists acc', completion (stepTopic env opts row acc w1) = Normal acc'
                       /\ one_more acc acc'
     else completion (stepTopic env opts row acc w1) = Throw)
  /\ (forall row acc w1,
        if tag_row_ok env opts w1 row
        then exists acc', completion (stepTag env opts row acc w1) = Normal acc'
                          /\ one_more acc acc'
        else completion (stepTag env opts row acc w1) = Throw)
  /\ (forall i row acc w1,
        if question_row_ok opts w1 row
        then exists acc', completion (stepQuestion env opts i row acc w1) = Normal acc'
                          /\ one_more (counts acc) (counts acc')
        else completion (stepQuestion env opts i row acc w1) = Throw)
  /\ settled (topics_loop env opts) (fun _ => topic_row_ok) total w rows
       (completion (importQuestionTopics env opts (FileJson (JArr rows)) w))
  /\ settled (tags_loop env opts) (tag_row_ok env opts) total w rows
       (completion (importQuestionTags env opts (FileJson (JArr rows)) w))
  /\ settled (questions_loop env opts) (question_row_ok opts)
       (fun p => total (counts p)) (loaded env w) rows
       (completion (importQuestions env opts (FileJson (JArr rows)) w)).
Proof.
  split; [intros; apply topic_step_settles|].
  split; [intros; apply tag_step_settles|].
  split; [intros; apply question_step_settles|].
  split; [apply topics_settled|].
  split; [apply tags_settled | apply questions_settled].
Qed.

Lemma counters_partition_readable_rows_witness :
  exists r,
    completion (importQuestionTopics memoryEnv defaultOptions
                  (FileJson (JArr [mathTopic; JObj []; mathTopic]))
                  (boot emptyStore)) = Normal r
    /\ r = {| created := 1; skipped := 1; failed := 1 |}
    /\ total r = 3.
Proof.
  destruct (proj1 (proj2 (proj2 (proj2
              (counters_partition_readable_rows memoryEnv defaultOptions
                 (boot emptyStore) [mathTopic; JObj []; mathTopic])))))
    as [(r & Hr & Ht & _) | (Hthrow & _)].
  - exists r. split; [exact Hr|]. split; [|exact Ht].
    vm_compute in Hr. now inversion Hr.
  - vm_compute in Hthrow. discriminate Hthrow.
Defined.

(** C10, as stated, fails: the input parses to a top-level array, yet a
    [null] row, a tag row whose name is a number, a question row whose
    topic is a number, or a topic row whose name has no string conversion
    ends the run with a [TypeError]; no result is returned and the row
    increments no counter. *)
Lemma counters_lost_on_unreadable_row :
  completion (importQuestionTopics memoryEnv defaultOptions
                (FileJson (JArr [JNull])) (boot emptyStore)) = Throw
  /\ completion (importQuestionTags memoryEnv defaultOptions
                   (FileJson (JArr [JObj [("name"%text, JNum 5)]]))
                   (boot emptyStore)) = Throw
  /\ completion (importQuestions memoryEnv defaultOptions
                   (FileJson (JArr [JObj [("question"%text, JStr "x");
                                          ("answers"%text, JArr [JStr "A"]);
                                          ("correctAnswer"%text, JArr [JStr "A"]);
                                          ("topic"%text, JNum 5)]]))
                   (boot emptyStore)) = Throw
  /\ completion (importQuestionTopics memoryEnv dryOptions
                   (FileJson (JArr [JObj [("name"%text, unprintable)]]))
                   (boot emptyStore)) = Throw.
Proof. repeat split; vm_compute; reflexivity. Qed.

(** ** Inputs that end the run before the first record *)

Lemma settled_throw {A Acc} (loop : list A -> Js Acc) (ok : World -> A -> bool)
    (size : Acc -> nat) (w : World) (rows : list A) :
  settled loop ok size w rows Throw -> stopped_at_a_row loop ok w rows.
Proof.
  intros [(r & H & _) | (_ & pre & row & post & acc & w' & E & Hr & _ & Hbad)];
    [discriminate H|].
  exists pre, row, post, acc, w'. auto.
Qed.

(** C5 (amended): a missing file, a file that does not parse and a
    top-level value that is not an array make each script return at once
    with the zero result and a diagnostic, no record processed and no store
    call made.  No other input makes a script return before the loop: on an
    array it announces the rows and runs the loop, and the run then ends
    without a result only at a row the loop body cannot process, which
    raises a [TypeError] ([topic_row_ok], [tag_row_ok] and
    [question_row_ok] say which rows those are). *)
Theorem only_fatal_inputs_return_at_once (env : Env) (opts : Options)
    (w : World) (file : DataFile) :
  (fatal_input file ->
     returned_at_once (importQuestionTopics env opts file w) w
     /\ returned_at_once (importQuestionTags env opts file w) w
     /\ returned_at_once (importQuestions env opts file w) w)
  /\ (~ fatal_input file ->
      exists rows, file = FileJson (JArr rows)
        /\ importQuestionTopics env opts file w =
             after (announced QuestionTopic opts (length rows))
               (topics_loop env opts rows w)
        /\ importQuestionTags env opts file w =
             after (announced QuestionTag opts (length rows))
               (tags_loop env opts rows w)
        /\ importQuestions env opts file w =
             after (cache_events env w ++ announced Question opts (length rows))
               (bind (questions_loop env opts rows) finish (loaded env w))
        /\ (completion (importQuestionTopics env opts file w) = Throw ->
            stopped_at_a_row (topics_loop env opts) (fun _ => topic_row_ok) w rows)
        /\ (completion (importQuestionTags env opts file w) = Throw ->
            stopped_at_a_row (tags_loop env opts) (tag_row_ok env opts) w rows)
        /\ (completion (importQuestions env opts file w) = Throw ->
            stopped_at_a_row (questions_loop env opts) (question_row_ok opts)
              (loaded env w) rows)).
Proof.
  split.
  - intros [-> | [-> | (v & -> & Hv)]].
    + repeat split; eexists _, _; (split; [reflexivity |]);
        repeat constructor.
    + repeat split; eexists _, _; (split; [reflexivity |]); constructor.
    + destruct v; try discriminate Hv;
        repeat split; eexists _, _; (split; [reflexivity |]); constructor.
  - intros Hnot.
    assert (exists rows, file = FileJson (JArr rows)) as (rows & ->).
    { destruct file as [| |v].
      - exfalso. apply Hnot. left. reflexivity.
      - exfalso. apply Hnot. right. left. reflexivity.
      - destruct v; try (exfalso; apply Hnot; right; right; eexists;
                         split; reflexivity).
        eexists. reflexivity. }
    exists rows. split; [reflexivity|].
    split; [apply importQuestionTopics_array|].
    split; [apply importQuestionTags_array|].
    split; [apply importQuestions_array|].
    split; [|split]; intros Ht.
    + pose proof (topics_settled env opts rows w) as H. rewrite Ht in H.
      exact (settled_throw _ _ _ _ _ H).
    + pose proof (tags_settled env opts rows w) as H. rewrite Ht in H.
      exact (settled_throw _ _ _ _ _ H).
    + pose proof (questions_settled env opts rows w) as H. rewrite Ht in H.
      exact (settled_throw _ _ _ _ _ H).
Qed.

Lemma only_fatal_inputs_return_at_once_witness :
  (returned_at_once
     (importQuestionTopics memoryEnv defaultOptions (FileJson (JStr "Math"))
        (boot emptyStore)) (boot emptyStore)
   /\ returned_at_once
        (importQuestionTags memoryEnv defaultOptions (FileJson (JStr "Math"))
           (boot emptyStore)) (boot emptyStore)
   /\ returned_at_once
        (importQuestions memoryEnv defaultOptions (FileJson (JStr "Math"))
           (boot emptyStore)) (boot emptyStore))
  /\ stopped_at_a_row (topics_loop memoryEnv defaultOptions)
       (fun _ => topic_row_ok) (boot emptyStore) [mathTopic; JNull; mathTopic].
Proof.
  split.
  - apply (proj1 (only_fatal_inputs_return_at_once memoryEnv defaultOptions
                    (boot emptyStore) (FileJson (JStr "Math")))).
    right. right. exists (JStr "Math"). split; reflexivity.
  - destruct (proj2 (only_fatal_inputs_return_at_once memoryEnv defaultOptions
                       (boot emptyStore)
                       (FileJson (JArr [mathTopic; JNull; mathTopic]))))
      as (rows & E & _ & _ & _ & Ht & _).
    + intros [H | [H | (v & H & Hv)]]; try discriminate H.
      injection H as <-. discriminate Hv.
    + injection E as <-. apply Ht. vm_compute. reflexivity.
Defined.

(** C5, as stated, fails in its last part: this file exists, parses, and
    holds an array, yet the run is cut short at the [null] row.  The first
    topic has been created by then, the third row is never looked at, and
    no result is returned. *)
Lemma null_row_aborts_the_run :
  importQuestionTopics memoryEnv defaultOptions
    (FileJson (JArr [mathTopic; JNull; mathTopic])) (boot emptyStore)
  = (Throw,
     boot {| topics := [{| topic_documentId := "topic-0";
                           topic_name := "Math";
                           topic_more := [];
                           topic_published := true |}];
             tags := []; questions := [] |},
     [ConsoleLog (Found QuestionTopic 3);
      ConsoleLog BlankLine;
      FindMany QuestionTopic (NameEq (JStr "Math")) 0;
      Create (TopicData {| te_name := JStr "Math";
                           te_description := paragraph "Algebra" |}) true;
      ConsoleLog (CreatedTopic (JStr "Math"))]).
Proof. vm_compute. reflexivity. Qed.

(** ** Normalisation of rich text *)

Lemma convertToBlocks_idempotent (v : Value) :
  convertToBlocks (convertToBlocks v) = convertToBlocks v.
Proof.
  destruct v as [| |b|x|s|items|fields]; try reflexivity.
  - destruct b; reflexivity.
  - unfold convertToBlocks; simpl.
    destruct (negb (PrimFloat.eqb x 0 || negb (PrimFloat.eqb x x))); reflexivity.
  - destruct s; reflexivity.
Qed.

Lemma convertDescriptionToBlocks_same (v : Value) :
  convertDescriptionToBlocks v = convertToBlocks v.
Proof. reflexivity. Qed.

(** C1 (amended): a non-empty plain string becomes one paragraph block whose
    single text child carries the string; an array of blocks comes back
    unchanged; normalising twice is normalising once; the empty string
    becomes [null].  Holds for [convertToBlocks] and
    [convertDescriptionToBlocks]. *)
Theorem normalisation_wraps_text (s : text) (Hs : s <> ""%text) :
  let block :=
    JArr [ JObj [ ("type"%text, JStr "paragraph");
                  ("children"%text,
                   JArr [ JObj [ ("type"%text, JStr "text");
                                 ("text"%text, JStr s) ] ]) ] ] in
  convertToBlocks (JStr s) = block
  /\ convertDescriptionToBlocks (JStr s) = block
  /\ (forall items, convertToBlocks (JArr items) = JArr items
                    /\ convertDescriptionToBlocks (JArr items) = JArr items)
  /\ (forall v, convertToBlocks (convertToBlocks v) = convertToBlocks v
                /\ convertDescriptionToBlocks (convertDescriptionToBlocks v)
                   = convertDescriptionToBlocks v)
  /\ convertToBlocks (JStr "") = JNull
  /\ convertDescriptionToBlocks (JStr "") = JNull.
Proof.
  cbv zeta. repeat split.
  - destruct s; [contradiction | reflexivity].
  - destruct s; [contradiction | reflexivity].
  - apply convertToBlocks_idempotent.
  - rewrite !convertDescriptionToBlocks_same. apply convertToBlocks_idempotent.
Qed.

Lemma normalisation_wraps_text_witness :
  convertDescriptionToBlocks (JStr "Algebra") =
  JArr [ JObj [ ("type"%text, JStr "paragraph");
                ("children"%text,
                 JArr [ JObj [ ("type"%text, JStr "text");
                               ("text"%text, JStr "Algebra") ] ]) ] ].
Proof.
  apply (normalisation_wraps_text "Algebra"). discriminate.
Defined.

(** C1, as stated, fails on the empty string: it is a plain string, yet
    both functions answer [null] and no paragraph block is produced. *)
Lemma normalisation_empty_string_is_null :
  convertToBlocks (JStr "") = JNull
  /\ convertDescriptionToBlocks (JStr "") = JNull
  /\ convertToBlocks (JStr "") <> paragraph ""
  /\ convertDescriptionToBlocks (JStr "") <> paragraph "".
Proof. repeat split; discriminate. Qed.

(** ** Synthesised question codes *)

Lemma hyphen_free_append_hyphen (p d : text) :
  hyphen_free (p ++ 45%N :: d) = false.
Proof.
  unfold hyphen_free. induction p as [|c p IH]; simpl.
  - reflexivity.
  - rewrite IH. apply andb_false_r.
Qed.

(** The text after the last hyphen of a string is determined by the string. *)
Lemma last_segment_unique (p1 p2 d1 d2 : text) :
  hyphen_free d1 = true -> hyphen_free d2 = true ->
  p1 ++ 45%N :: d1 = p2 ++ 45%N :: d2 -> d1 = d2.
Proof.
  revert p2. induction p1 as [|c p1 IH]; intros [|c' p2] H1 H2 E; simpl in E.
  - now inversion E.
  - inversion E as [[Ec Ed]]. subst d1.
    rewrite hyphen_free_append_hyphen in H1. discriminate.
  - inversion E as [[Ec Ed]]. subst d2.
    rewrite hyphen_free_append_hyphen in H2. discriminate.
  - inversion E. eauto.
Qed.

Lemma decimal_hyphen_free (i : nat) : hyphen_free (decimal i) = true.
Proof.
  unfold decimal. induction (Nat.to_uint i); simpl; auto.
Qed.

Lemma text_of_string_inj (a b : string) :
  text_of_string a = text_of_string b -> a = b.
Proof.
  unfold text_of_string. revert b.
  induction a as [|x a IH]; intros [|y b] E; simpl in E; try discriminate E.
  - reflexivity.
  - injection E as Ex Er. f_equal; [|now apply IH].
    rewrite <- (ascii_N_embedding x), <- (ascii_N_embedding y). now rewrite Ex.
Qed.

Lemma decimal_inj (i j : nat) : decimal i = decimal j -> i = j.
Proof.
  unfold decimal. intros E. apply text_of_string_inj in E.
  apply Unsigned.to_uint_inj.
  assert (Some (Nat.to_uint i) = Some (Nat.to_uint j)) as H.
  { rewrite <- !NilEmpty.usu. now rewrite E. }
  now inversion H.
Qed.

Lemma generateCode_shape (env : Env) (i : nat) :
  generateCode env i =
  ("Q-"%text ++ toString36 (env_now env i) ++ "-"%text ++ env_random env i)
    ++ 45%N :: decimal i.
Proof. unfold generateCode. rewrite <- !List.app_assoc. reflexivity. Qed.

Lemma generateCode_inj (env env' : Env) (i j : nat) :
  generateCode env i = generateCode env' j -> i = j.
Proof.
  rewrite !generateCode_shape. intros E.
  apply decimal_inj.
  eapply last_segment_unique; [| | exact E]; apply decimal_hyphen_free.
Qed.

(** C9: a question record that supplies no code gets the code synthesised
    from the clock, the random suffix and its index; records at distinct
    indices of one run get distinct synthesised codes, whatever the clock
    and the random source return. *)
Theorem synthesized_codes_distinct (env : Env) (w : World)
    (i j : nat) (qi qj : Value)
    (Hi : is_record qi = true) (Hj : is_record qj = true)
    (Ci : truthy (field qi "code") = false)
    (Cj : truthy (field qj "code") = false)
    (Hij : i <> j) :
  codeFor env i qi w = (Normal (JStr (generateCode env i)), w, [])
  /\ codeFor env j qj w = (Normal (JStr (generateCode env j)), w, [])
  /\ generateCode env i =
     "Q-"%text ++ toString36 (env_now env i) ++ "-"%text ++ env_random env i
               ++ "-"%text ++ decimal i
  /\ generateCode env i <> generateCode env j.
Proof.
  repeat split.
  - rewrite (codeFor_record _ _ _ _ Hi). unfold code_of. now rewrite Ci.
  - rewrite (codeFor_record _ _ _ _ Hj). unfold code_of. now rewrite Cj.
  - intros E. apply Hij. eapply generateCode_inj; exact E.
Qed.

Lemma synthesized_codes_distinct_witness :
  codeFor memoryEnv 0 uncodedQuestion (boot emptyStore)
    = (Normal (JStr "Q-loyw3v28-k3x9-0"), boot emptyStore, [])
  /\ codeFor memoryEnv 1 uncodedQuestion (boot emptyStore)
    = (Normal (JStr "Q-loyw3v29-k3x9-1"), boot emptyStore, [])
  /\ generateCode memoryEnv 0 <> generateCode memoryEnv 1.
Proof.
  destruct (synthesized_codes_distinct memoryEnv (boot emptyStore) 0 1
              uncodedQuestion uncodedQuestion eq_refl eq_refl eq_refl eq_refl)
    as (E0 & E1 & _ & Hne); [lia|].
  split; [exact E0 | split; [exact E1 | exact Hne]].
Defined.

(** ** Existence checks *)

(** C4: [checkExistingTag] asks the store twice, by name and by slug, and
    answers [true] exactly when some stored tag has that name or some stored
    tag has that slug; one of the two is enough. *)
Theorem tag_exists_iff_name_or_slug (w : World) (name slug : Value) :
  exists (answer : bool) (byName bySlug : nat),
    checkExistingTag name slug w =
      (Normal answer, w,
       [FindMany QuestionTag (NameEq name) byName;
        FindMany QuestionTag (SlugEq slug) bySlug])
    /\ (answer = true <->
        (exists d, In d (tags (store w)) /\ JStr (tag_name d) = name)
        \/ (exists d, In d (tags (store w)) /\ JStr (tag_slug d) = slug)).
Proof.
  unfold checkExistingTag, bind, findManyTags, ret. simpl.
  eexists _, _, _. split; [reflexivity|].
  rewrite orb_true_iff, !hits_positive.
  split; (intros [(d & Hd & Hv) | (d & Hd & Hv)]; [left | right]; exists d;
          split; trivial; apply value_is_spec; exact Hv).
Qed.

(** ** Rows that miss a required field *)

Lemma no_items_spec (v : Value) :
  no_items v = true <-> forall x xs, v <> JArr (x :: xs).
Proof.
  split.
  - intros H x xs ->. discriminate H.
  - intros H. unfold no_items.
    destruct v as [| |b|x|s|items|fields]; simpl;
      try reflexivity; try (now rewrite orb_true_r).
    destruct items as [|x xs]; [reflexivity|]. exfalso. now apply (H x xs).
Qed.

(** C6 (amended): a record (any row but [null]) that misses a required
    field - a topic or tag without a name, a question without question
    text, without a non-empty [answers] array or without a non-empty
    [correctAnswer] array - adds exactly one to the failed count and
    nothing to the others, causes no store call at all, and the loop goes
    on with the next row; for a question that has its text, provided the
    code it supplies can be printed, since the message names the code.  If
    the code cannot be printed the message raises a [TypeError] and nothing
    is counted. *)
Theorem missing_required_field_is_failed (env : Env) (opts : Options)
    (w : World) (row : Value) (Hrow : is_record row = true) :
  (truthy (field row "name") = false ->
   forall (acc : ImportResult) (rest : list Value),
     let acc' := {| created := created acc; skipped := skipped acc;
                    failed := S (failed acc) |} in
     stepTopic env opts row acc w =
       (Normal acc', w, [ConsoleError EntryWithoutName])
     /\ stepTag env opts row acc w =
          (Normal acc', w, [ConsoleError EntryWithoutName])
     /\ forEach (stepTopic env opts) (row :: rest) acc w =
          after [ConsoleError EntryWithoutName]
            (forEach (stepTopic env opts) rest acc' w)
     /\ forEach (stepTag env opts) (row :: rest) acc w =
          after [ConsoleError EntryWithoutName]
            (forEach (stepTag env opts) rest acc' w))
  /\ (truthy (field row "question") = false
      \/ (forall x xs, field row "answers" <> JArr (x :: xs))
      \/ (forall x xs, field row "correctAnswer" <> JArr (x :: xs)) ->
      forall (i : nat) (acc : Progress) (rest : list Value),
        let acc' := {| counts := {| created := created (counts acc);
                                    skipped := skipped (counts acc);
                                    failed := S (failed (counts acc)) |};
                       missingTopics := missingTopics acc;
                       missingTags := missingTags acc |} in
        (truthy (field row "question") = false
         \/ renderable (field row "code") = true ->
         exists diag,
           stepQuestion env opts i row acc w = (Normal acc', w, [ConsoleError diag])
           /\ forIndex (stepQuestion env opts) i (row :: rest) acc w =
                after [ConsoleError diag]
                  (forIndex (stepQuestion env opts) (S i) rest acc' w))
        /\ (truthy (field row "question") = true ->
            renderable (field row "code") = false ->
            stepQuestion env opts i row acc w = (Throw, w, [])
            /\ forIndex (stepQuestion env opts) i (row :: rest) acc w
               = (Throw, w, []))).
Proof.
  split.
  - intros Hname acc rest acc'.
    assert (stepTopic env opts row acc w =
            (Normal acc', w, [ConsoleError EntryWithoutName])) as Et.
    { rewrite stepTopic_outcome. unfold topic_outcome.
      now rewrite Hrow, Hname. }
    assert (stepTag env opts row acc w =
            (Normal acc', w, [ConsoleError EntryWithoutName])) as Eg.
    { rewrite stepTag_outcome. unfold tag_outcome.
      now rewrite Hrow, Hname. }
    repeat split; trivial.
    + apply forEach_cons, Et.
    + apply forEach_cons, Eg.
  - intros Hmiss i acc rest acc'.
    assert (printable (InvalidAnswers (code_of env i row))
            = renderable (field row "code")
            /\ printable (InvalidCorrectAnswer (code_of env i row))
               = renderable (field row "code")) as [P1 P2].
    { unfold printable. simpl. now rewrite code_of_renderable, andb_true_r. }
    split.
    + intros Hprint.
      assert (exists diag, stepQuestion env opts i row acc w =
                           (Normal acc', w, [ConsoleError diag])) as (diag & E).
      { rewrite stepQuestion_outcome. unfold question_outcome, spoken.
        rewrite Hrow, P1, P2. simpl.
        destruct (truthy (field row "question")) eqn:Q; simpl;
          [|eexists; reflexivity].
        destruct Hprint as [Hq | Hc]; [discriminate Hq|]. rewrite Hc.
        destruct (no_items (field row "answers")) eqn:A;
          [eexists; reflexivity|].
        destruct (no_items (field row "correctAnswer")) eqn:C;
          [eexists; reflexivity|].
        exfalso. destruct Hmiss as [H | [H | H]].
        - congruence.
        - apply no_items_spec in H. congruence.
        - apply no_items_spec in H. congruence. }
      exists diag. split; [exact E|]. apply forIndex_cons, E.
    + intros Q Hc.
      assert (stepQuestion env opts i row acc w = (Throw, w, [])) as E.
      { rewrite stepQuestion_outcome. unfold question_outcome, spoken.
        rewrite Hrow, P1, P2, Q, Hc. simpl.
        destruct (no_items (field row "answers")) eqn:A; [reflexivity|].
        destruct (no_items (field row "correctAnswer")) eqn:C; [reflexivity|].
        exfalso. destruct Hmiss as [H | [H | H]].
        - congruence.
        - apply no_items_spec in H. congruence.
        - apply no_items_spec in H. congruence. }
      split; [exact E|]. simpl. now rewrite (bind_throw _ _ _ _ _ E).
Qed.

Lemma missing_required_field_is_failed_witness :
  stepTopic memoryEnv defaultOptions (JObj [("description"%text, JStr "Algebra")])
    zeroResult (boot emptyStore)
  = (Normal {| created := 0; skipped := 0; failed := 1 |}, boot emptyStore,
     [ConsoleError EntryWithoutName])
  /\ (exists diag,
        stepQuestion memoryEnv defaultOptions 4
          (JObj [("code"%text, JStr "Q001"); ("question"%text, JStr "x");
                 ("answers"%text, JArr [])])
          startProgress (boot geographyStore)
        = (Normal {| counts := {| created := 0; skipped := 0; failed := 1 |};
                     missingTopics := []; missingTags := [] |},
           boot geographyStore, [ConsoleError diag]))
  /\ stepQuestion memoryEnv defaultOptions 4
       (JObj [("code"%text, unprintable); ("question"%text, JStr "x");
              ("answers"%text, JArr [])])
       startProgress (boot geographyStore)
     = (Throw, boot geographyStore, []).
Proof.
  split; [|split].
  - apply (proj1 (missing_required_field_is_failed memoryEnv defaultOptions
                    (boot emptyStore)
                    (JObj [("description"%text, JStr "Algebra")]) eq_refl)
             eq_refl zeroResult []).
  - destruct (proj1 (proj2 (missing_required_field_is_failed memoryEnv
                              defaultOptions (boot geographyStore)
                              (JObj [("code"%text, JStr "Q001");
                                     ("question"%text, JStr "x");
                                     ("answers"%text, JArr [])]) eq_refl)
                       (or_intror (or_introl
                          (fun x xs (H : JArr [] = JArr (x :: xs)) =>
                             eq_ind (JArr []) (fun v => match v with
                                                        | JArr [] => True
                                                        | _ => False end) I _ H)))
                       4 startProgress [])
                (or_intror eq_refl)) as (diag & E & _).
    exists diag. exact E.
  - apply (proj2 (proj2 (missing_required_field_is_failed memoryEnv
                           defaultOptions (boot geographyStore)
                           (JObj [("code"%text, unprintable);
                                  ("question"%text, JStr "x");
                                  ("answers"%text, JArr [])]) eq_refl)
                    (or_intror (or_introl
                       (fun x xs (H : JArr [] = JArr (x :: xs)) =>
                          eq_ind (JArr []) (fun v => match v with
                                                     | JArr [] => True
                                                     | _ => False end) I _ H)))
                    4 startProgress []) eq_refl eq_refl).
Defined.

(** C6, as stated, fails: the first question has its text and no answers,
    but its code is an object with a [toString] field, which the failure
    message cannot print; the run ends there with a [TypeError], the failed
    count is lost with the result and the second question is never looked
    at.  Likewise a [null] row has no name, and reading it ends the topic
    run. *)
Lemma unprintable_code_of_rejected_record_aborts :
  importQuestions memoryEnv defaultOptions
    (FileJson (JArr [JObj [("code"%text, JObj [("toString"%text, JNum 1)]);
                           ("question"%text, JStr "x")];
                     franceQuestion]))
    (boot emptyStore)
  = (Throw, boot emptyStore,
     [FindMany QuestionTopic StatusPublished 0;
      ConsoleLog (CacheLoaded QuestionTopic 0);
      FindMany QuestionTag StatusPublished 0;
      ConsoleLog (CacheLoaded QuestionTag 0);
      ConsoleLog (Found Question 2); ConsoleLog BlankLine])
  /\ importQuestionTopics memoryEnv defaultOptions
       (FileJson (JArr [JNull; mathTopic])) (boot emptyStore)
     = (Throw, boot emptyStore,
        [ConsoleLog (Found QuestionTopic 2); ConsoleLog BlankLine]).
Proof. split; vm_compute; reflexivity. Qed.

(** ** Records the store already has *)

(** A key the store matches is a string, and a string can be printed. *)
Lemma matched_filter_renderable {A} (key : A -> text) (v : Value) (l : list A) :
  0 < length (List.filter (fun d => value_is (key d) v) l) -> renderable v = true.
Proof.
  intros H. apply Nat.ltb_lt, hits_positive in H as (d & _ & Hd).
  apply value_is_spec in Hd. now subst v.
Qed.

Lemma matched_topic_renderable (w : World) (name : Value) :
  0 < topic_hits w name -> renderable name = true.
Proof. apply matched_filter_renderable. Qed.

Lemma matched_question_renderable (w : World) (code : Value) :
  0 < question_hits w code -> renderable code = true.
Proof.
  unfold question_hits. intros H.
  apply Nat.ltb_lt, hits_positive in H as (d & _ & Hd).
  unfold code_is in Hd. destruct (question_code d); [|discriminate Hd].
  apply value_is_spec in Hd. now subst code.
Qed.

Ltac no_report Hin Hn :=
  simpl in Hin;
  repeat match type of Hin with
  | _ \/ _ => destruct Hin as [Hin | Hin]
  | False => destruct Hin
  | _ = _ => first [discriminate Hin | (inversion Hin; subst; lia)]
  end.

(** The endings of a message and of a create request, one by one. *)
Ltac endings :=
  unfold spoken, submitted in *;
  repeat match goal with
  | H : context [if printable ?m then _ else _] |- _ => destruct (printable m)
  | H : context [match env_create ?e ?s ?x with _ => _ end] |- _ =>
      destruct (env_create e s x)
  end.

(** C3 (amended): with [skipExisting] on, whenever the store answers the
    existence check of a row with a match - on the name for a topic, on the
    name or on the slug for a tag, on the code for a question, which is
    asked only when the row supplies a code - no create request is made for
    the row, and the row adds exactly one to the skipped count and nothing
    to the others, provided its name can be printed: the skip message
    names it.  A matched topic name or question code is a string and always
    can; a tag matched by its slug may have a name with no string
    conversion, and then the message raises a [TypeError] after the two
    queries. *)
Theorem existing_record_is_skipped (env : Env) (opts : Options) (w : World)
    (row : Value) (Hskip : skipExisting opts = true) :
  (forall acc,
     reports_match QuestionTopic (events (stepTopic env opts row acc w)) ->
     exists n, 0 < n /\
       stepTopic env opts row acc w =
         (Normal {| created := created acc; skipped := S (skipped acc);
                    failed := failed acc |}, w,
          [FindMany QuestionTopic (NameEq (field row "name")) n;
           ConsoleLog (SkippingExisting QuestionTopic (field row "name"))]))
  /\ (forall acc,
        reports_match QuestionTag (events (stepTag env opts row acc w)) ->
        exists n1 n2, 0 < n1 + n2 /\
          stepTag env opts row acc w =
            if renderable (field row "name") then
              (Normal {| created := created acc; skipped := S (skipped acc);
                         failed := failed acc |}, w,
               [FindMany QuestionTag (NameEq (field row "name")) n1;
                FindMany QuestionTag (SlugEq (slug_of env row)) n2;
                ConsoleLog (SkippingExisting QuestionTag (field row "name"))])
            else
              (Throw, w,
               [FindMany QuestionTag (NameEq (field row "name")) n1;
                FindMany QuestionTag (SlugEq (slug_of env row)) n2]))
  /\ (forall i acc,
        reports_match Question (events (stepQuestion env opts i row acc w)) ->
        truthy (field row "code") = true /\
        exists n, 0 < n /\
          stepQuestion env opts i row acc w =
            (Normal {| counts := {| created := created (counts acc);
                                    skipped := S (skipped (counts acc));
                                    failed := failed (counts acc) |};
                       missingTopics := missingTopics acc;
                       missingTags := missingTags acc |}, w,
             [FindMany Question (CodeEq (field row "code")) n;
              ConsoleLog (SkippingExisting Question (field row "code"))])).
Proof.
  split; [|split].
  - intros acc (qy & n & Hin & Hn).
    rewrite stepTopic_outcome in *. unfold topic_outcome in *.
    rewrite Hskip in *. simpl in *.
    destruct (is_record row); simpl in *; [|no_report Hin Hn].
    destruct (truthy (field row "name")); simpl in *; [|no_report Hin Hn].
    destruct (0 <? topic_hits w (field row "name")) eqn:Hh.
    + apply Nat.ltb_lt in Hh. eexists. split; [exact Hh|].
      unfold spoken, printable. simpl.
      now rewrite (matched_topic_renderable _ _ Hh).
    + apply Nat.ltb_ge in Hh. exfalso.
      destruct (dryRun opts); endings; no_report Hin Hn.
  - intros acc (qy & n & Hin & Hn).
    rewrite stepTag_outcome in *. unfold tag_outcome in *.
    rewrite Hskip in *. simpl in *.
    destruct (is_record row); simpl in *; [|no_report Hin Hn].
    destruct (truthy (field row "name")); simpl in *; [|no_report Hin Hn].
    destruct (negb (truthy (field row "slug")) && negb (isString (field row "name")));
      [no_report Hin Hn|].
    destruct ((0 <? tag_name_hits w (field row "name"))
              || (0 <? tag_slug_hits w (slug_of env row))) eqn:Hh.
    + exists (tag_name_hits w (field row "name")),
             (tag_slug_hits w (slug_of env row)).
      split.
      { apply orb_prop in Hh as [H | H]; apply Nat.ltb_lt in H; lia. }
      unfold spoken, printable. simpl. rewrite andb_true_r.
      destruct (renderable (field row "name")); reflexivity.
    + apply orb_false_elim in Hh as [H1 H2].
      apply Nat.ltb_ge in H1, H2. exfalso.
      destruct (dryRun opts); endings; no_report Hin Hn.
  - intros i acc (qy & n & Hin & Hn).
    rewrite stepQuestion_outcome in *. unfold question_outcome in *.
    rewrite Hskip in *. simpl in *.
    destruct (is_record row); simpl in *; [|no_report Hin Hn].
    destruct (truthy (field row "question")); simpl in *; [|no_report Hin Hn].
    destruct (no_items (field row "answers")); [endings; no_report Hin Hn|].
    destruct (no_items (field row "correctAnswer")); [endings; no_report Hin Hn|].
    destruct (truthy (field row "code")) eqn:C; simpl in *.
    2:{ exfalso.
        destruct (names_ok (dryRun opts) row); simpl in *; [|no_report Hin Hn].
        destruct (dryRun opts); endings; no_report Hin Hn. }
    split; [reflexivity|].
    destruct (0 <? question_hits w (field row "code")) eqn:Hh.
    + apply Nat.ltb_lt in Hh. eexists. split; [exact Hh|].
      unfold spoken, printable, code_of. rewrite C. simpl.
      now rewrite (matched_question_renderable _ _ Hh).
    + apply Nat.ltb_ge in Hh. exfalso.
      destruct (names_ok (dryRun opts) row); simpl in *; [|no_report Hin Hn].
      destruct (dryRun opts); endings; no_report Hin Hn.
Qed.

Lemma existing_record_is_skipped_witness :
  (exists n, 0 < n /\
     stepTopic memoryEnv defaultOptions
       (JObj [("name"%text, JStr "Geography")]) zeroResult (boot geographyStore) =
       (Normal {| created := 0; skipped := 1; failed := 0 |}, boot geographyStore,
        [FindMany QuestionTopic (NameEq (JStr "Geography")) n;
         ConsoleLog (SkippingExisting QuestionTopic (JStr "Geography"))]))
  /\ (exists n1 n2, 0 < n1 + n2 /\
        stepTag memoryEnv defaultOptions
          (JObj [("name"%text, JStr "The Old World"); ("slug"%text, JStr "europe")])
          zeroResult (boot geographyStore) =
          (Normal {| created := 0; skipped := 1; failed := 0 |}, boot geographyStore,
           [FindMany QuestionTag (NameEq (JStr "The Old World")) n1;
            FindMany QuestionTag (SlugEq (JStr "europe")) n2;
            ConsoleLog (SkippingExisting QuestionTag (JStr "The Old World"))]))
  /\ (exists n, 0 < n /\
        stepQuestion memoryEnv defaultOptions 0 franceQuestion startProgress
          (boot geographyStore) =
          (Normal {| counts := {| created := 0; skipped := 1; failed := 0 |};
                     missingTopics := []; missingTags := [] |},
           boot geographyStore,
           [FindMany Question (CodeEq (JStr "Q001")) n;
            ConsoleLog (SkippingExisting Question (JStr "Q001"))])).
Proof.
  split; [|split].
  - apply (proj1 (existing_record_is_skipped memoryEnv defaultOptions
                    (boot geographyStore)
                    (JObj [("name"%text, JStr "Geography")]) eq_refl)
             zeroResult).
    exists (NameEq (JStr "Geography")), 1. split; [left; reflexivity | lia].
  - apply (proj1 (proj2 (existing_record_is_skipped memoryEnv defaultOptions
                           (boot geographyStore)
                           (JObj [("name"%text, JStr "The Old World");
                                  ("slug"%text, JStr "europe")]) eq_refl))
             zeroResult).
    exists (SlugEq (JStr "europe")), 1.
    split; [right; left; reflexivity | lia].
  - apply (proj2 (proj2 (existing_record_is_skipped memoryEnv defaultOptions
                           (boot geographyStore) franceQuestion eq_refl))
             0 startProgress).
    exists (CodeEq (JStr "Q001")), 1. split; [left; reflexivity | lia].
Defined.

(** C3, as stated, fails: the store has a tag of slug [europe], the row
    gives that slug and a name with no string conversion, [skipExisting] is
    on and the store reports the match; the skip message cannot be printed,
    the run ends with a [TypeError] and no skipped count is returned. *)
Lemma matched_tag_with_unprintable_name_aborts :
  importQuestionTags memoryEnv defaultOptions
    (FileJson (JArr [JObj [("name"%text, JObj [("toString"%text, JNum 1)]);
                           ("slug"%text, JStr "europe")]]))
    (boot geographyStore)
  = (Throw, boot geographyStore,
     [ConsoleLog (Found QuestionTag 1); ConsoleLog BlankLine;
      FindMany QuestionTag (NameEq (JObj [("toString"%text, JNum 1)])) 0;
      FindMany QuestionTag (SlugEq (JStr "europe")) 1]).
Proof. vm_compute. reflexivity. Qed.

(** ** Frames *)

Section Frame.

Variable R : World -> World -> Prop.

Variable P : Event -> Prop.

Hypothesis R_refl : forall w, R w w.

Hypothesis R_trans : forall w1 w2 w3, R w1 w2 -> R w2 w3 -> R w1 w3.

Lemma framed_ret {A} (a : A) : framed R P (ret a).
Proof. intros w. split; [apply R_refl | constructor]. Qed.

Lemma framed_bind {A B} (m : Js A) (k : A -> Js B) :
  framed R P m -> (forall a, framed R P (k a)) -> framed R P (bind m k).
Proof.
  intros Hm Hk w. unfold bind. destruct (Hm w) as [Rm Em].
  destruct (m w) as [[[a|] w1] ev1]; simpl in *; [|split; assumption].
  destruct (Hk a w1) as [Rk Ek].
  destruct (k a w1) as [[r w2] ev2]; simpl in *.
  split; [eapply R_trans; eassumption | apply Forall_app; split; assumption].
Qed.

Lemma framed_forIndex {A Acc} (body : nat -> A -> Acc -> Js Acc)
    (rows : list A) :
  (forall i row acc, framed R P (body i row acc)) ->
  forall i acc, framed R P (forIndex body i rows acc).
Proof.
  intros Hb. induction rows as [|row rest IH]; intros i acc; simpl.
  - apply framed_ret.
  - apply framed_bind; [apply Hb | intros acc'; apply IH].
Qed.



End Frame.

(** The tables of the loop bodies, leaf by leaf. *)
Ltac table_cases :=
  unfold spoken, submitted;
  repeat match goal with
  | |- context [if ?b then _ else _] => destruct b
  | |- context [match env_create ?e ?s ?x with _ => _ end] =>
      destruct (env_create e s x)
  end.





(** No loop body writes the caches. *)
Lemma stepQuestion_keeps_caches (env : Env) (opts : Options) (i : nat)
    (row : Value) (acc : Progress) :
  framed same_caches anything (stepQuestion env opts i row acc).
Proof.
  intros w. rewrite stepQuestion_outcome. unfold question_outcome, same_caches.
  table_cases; simpl; (split; [split; reflexivity|]);
    apply Forall_forall; intros; exact I.
Qed.



Lemma same_caches_refl (w : World) : same_caches w w.
Proof. split; reflexivity. Qed.

Lemma same_caches_trans (w1 w2 w3 : World) :
  same_caches w1 w2 -> same_caches w2 w3 -> same_caches w1 w3.
Proof. unfold same_caches. intros [] []. split; congruence. Qed.








(** ** Dry runs *)











Lemma announced_no_request (k : Kind) (opts : Options) (n : nat) :
  requests (announced k opts n) = 0.
Proof. reflexivity. Qed.




(** ** The caches of the question script *)

Section Index.

Context `{Document D}.

Variable key : D -> text.

Lemma index_by_snoc (c : Cache D) (docs : list D) (d : D) :
  index_by key c (docs ++ [d]) = assign (index_by key c docs) (key d) d.
Proof. unfold index_by. now rewrite foldl_app. Qed.

Lemma assign_own_other (c : Cache D) (k k' : text) (d : D) :
  k' <> k -> own (assign c k' d) !! k = own c !! k.
Proof.
  intros Hne. unfold assign.
  destruct (text_eqb k' "__proto__" && negb (shadowed c k')); simpl;
    [reflexivity|].
  now rewrite lookup_insert_ne.
Qed.

Lemma assign_own_same (c : Cache D) (k : text) (d : D) :
  k <> "__proto__"%text -> own (assign c k d) !! k = Some d.
Proof.
  intros Hne. unfold assign.
  apply text_eqb_neq in Hne. rewrite Hne. simpl.
  now rewrite lookup_insert_eq.
Qed.

(** Apart from [__proto__], a key holds the last document indexed under
    it. *)
Lemma index_by_latest (docs : list D) (k : text) :
  k <> "__proto__"%text ->
  own (index_by key emptyCache docs) !! k = latest (fun d => text_eqb (key d) k) docs.
Proof.
  intros Hne. induction docs as [|d docs IH] using rev_ind.
  - reflexivity.
  - rewrite index_by_snoc. unfold latest. rewrite rev_app_distr. simpl.
    destruct (text_eqb (key d) k) eqn:E.
    + apply text_eqb_eq in E. subst k. now apply assign_own_same.
    + apply text_eqb_neq in E. rewrite (assign_own_other _ _ _ _ E). exact IH.
Qed.

(** Every key is the key of the document it holds. *)
Lemma index_by_keyed (docs : list D) (k : text) (d : D) :
  own (index_by key emptyCache docs) !! k = Some d -> In d docs /\ k = key d.
Proof.
  induction docs as [|x docs IH] using rev_ind.
  - simpl. rewrite lookup_empty. discriminate.
  - rewrite index_by_snoc. unfold assign.
    destruct (text_eqb (key x) "__proto__" && negb _); simpl.
    + intros E. destruct (IH E) as [Hin ->]. split; [|reflexivity].
      apply in_or_app. now left.
    + destruct (decide (key x = k)) as [<- | Hne].
      * rewrite lookup_insert_eq. intros [= <-]. split; [|reflexivity].
        apply in_or_app. right. now left.
      * rewrite lookup_insert_ne by exact Hne.
        intros E. destruct (IH E) as [Hin ->]. split; [|reflexivity].
        apply in_or_app. now left.
Qed.

End Index.

Lemma latest_found {D} (matches : D -> bool) (docs : list D) (d : D) :
  In d docs -> matches d = true ->
  exists d', latest matches docs = Some d'.
Proof.
  intros Hin Hm. unfold latest.
  destruct (List.find matches (rev docs)) as [d'|] eqn:E; [eauto|].
  exfalso. apply in_rev in Hin.
  pose proof (find_none _ _ E d Hin) as Hn. congruence.
Qed.

Lemma latest_matches {D} (matches : D -> bool) (docs : list D) (d : D) :
  latest matches docs = Some d -> In d docs /\ matches d = true.
Proof.
  unfold latest. intros E. apply find_some in E as [Hin Hm].
  split; [now apply in_rev | exact Hm].
Qed.

Lemma lookup_own `{Document D} (c : Cache D) (k : text) (d : D) :
  own c !! k = Some d -> lookup_key c k = Entity d.
Proof. unfold lookup_key. now intros ->. Qed.


Lemma index_topics_latest (env : Env) (docs : list TopicDoc) (n : text) :
  proto_key env n = false ->
  own (index_topics env docs) !! env_toLowerCase env n
  = latest (topic_named env n) docs.
Proof.
  intros Hk. apply text_eqb_neq in Hk.
  exact (index_by_latest (fun d => env_toLowerCase env (topic_name d)) docs _ Hk).
Qed.

Lemma index_tags_latest (env : Env) (docs : list TagDoc) (n : text) :
  proto_key env n = false ->
  own (index_tags env docs) !! env_toLowerCase env n
  = latest (tag_named env n) docs.
Proof.
  intros Hk. apply text_eqb_neq in Hk.
  exact (index_by_latest (fun d => env_toLowerCase env (tag_name d)) docs _ Hk).
Qed.

Lemma index_topics_keyed (env : Env) (docs : list TopicDoc) (k : text)
    (t : TopicDoc) :
  own (index_topics env docs) !! k = Some t ->
  In t docs /\ k = env_toLowerCase env (topic_name t).
Proof.
  exact (index_by_keyed (fun d => env_toLowerCase env (topic_name d)) docs k t).
Qed.

Lemma index_tags_keyed (env : Env) (docs : list TagDoc) (k : text) (g : TagDoc) :
  own (index_tags env docs) !! k = Some g ->
  In g docs /\ k = env_toLowerCase env (tag_name g).
Proof.
  exact (index_by_keyed (fun d => env_toLowerCase env (tag_name d)) docs k g).
Qed.

Lemma latest_last {D} (matches : D -> bool) (l1 l2 : list D) (d : D) :
  matches d = true -> forallb (fun x => negb (matches x)) l2 = true ->
  latest matches (l1 ++ d :: l2) = Some d.
Proof.
  intros Hd Hl2. unfold latest.
  rewrite rev_app_distr. simpl. rewrite <- List.app_assoc. simpl.
  assert (forall l, forallb (fun x => negb (matches x)) l = true ->
                    forall rest, List.find matches (l ++ rest) = List.find matches rest)
    as Hskip.
  { induction l as [|x l IH]; intros Hl rest; [reflexivity|].
    simpl in Hl. apply andb_prop in Hl as [Hx Hl]. simpl.
    destruct (matches x); [discriminate Hx | now apply IH]. }
  rewrite Hskip.
  - simpl. now rewrite Hd.
  - rewrite forallb_forall in *. intros x Hx. apply Hl2. now apply in_rev.
Qed.

Lemma lower_unit_same_letter (x y : N) :
  lower_unit x = lower_unit y <-> same_letter x y.
Proof.
  unfold lower_unit, same_letter.
  destruct ((65 <=? x) && (x <=? 90))%N eqn:Ex;
    destruct ((65 <=? y) && (y <=? 90))%N eqn:Ey;
    rewrite ?andb_true_iff, ?andb_false_iff, ?N.leb_le, ?N.leb_gt in *; lia.
Qed.

Lemma asciiLowerCase_same_letters (a b : text) :
  asciiLowerCase a = asciiLowerCase b <-> Forall2 same_letter a b.
Proof.
  unfold asciiLowerCase. revert b.
  induction a as [|x a IH]; intros [|y b]; simpl.
  - split; [constructor | reflexivity].
  - split; [discriminate | intros H; inversion H].
  - split; [discriminate | intros H; inversion H].
  - split.
    + intros [= Hx Hr]. constructor.
      * now apply lower_unit_same_letter.
      * now apply IH.
    + intros H. inversion H as [|? ? ? ? Hx Hr]; subst. f_equal.
      * now apply lower_unit_same_letter.
      * now apply IH.
Qed.

Lemma findTopicByName_cached (env : Env) (w : World) (n : text) (t : TopicDoc) :
  n <> ""%text ->
  own (topicsCache w) !! env_toLowerCase env n = Some t ->
  findTopicByName env (JStr n) w = (Normal (Entity t), w, []).
Proof.
  intros Hn Hk. unfold findTopicByName.
  destruct n; [contradiction|]. simpl.
  unfold bind. simpl. now rewrite (lookup_own _ _ _ Hk).
Qed.

Lemma cached_tags_entities (env : Env) (w : World) (names : list text)
    (found : list TagDoc) :
  Forall2 (fun n g => own (tagsCache w) !! env_toLowerCase env n = Some g)
    names found ->
  cached_tags env w (map JStr names) = map Entity found.
Proof.
  unfold cached_tags, tag_slot.
  induction 1 as [|n g names found Hk _ IH]; [reflexivity|].
  simpl. rewrite (lookup_own _ _ _ Hk). simpl. now rewrite IH.
Qed.

Lemma strings_are_strings (names : list text) :
  forallb isString (map JStr names) = true.
Proof. induction names; simpl; auto. Qed.

Lemma questions_loop_keeps_caches (env : Env) (opts : Options)
    (rows : list Value) (i : nat) (acc : Progress) (w : World) :
  same_caches w (final (forIndex (stepQuestion env opts) i rows acc w)).
Proof.
  apply (framed_forIndex same_caches anything same_caches_refl same_caches_trans).
  intros j row p. apply stepQuestion_keeps_caches.
Qed.

(** C8 (amended): the question script fills both caches from the published
    documents of the store before the loop starts and nothing writes them
    afterwards; every key of a cache is the lowercased name of the document
    it holds.  A name that the engine's [toLowerCase] makes equal to the name
    of a published topic or tag resolves to the last published document
    with such a name, which is that very document unless a later one
    shares its name up to case; for a topic, provided the name is not the
    empty string, which the script takes for "no topic".  (Names whose
    lowercased form is [__proto__] are left out: the assignment then
    replaces the prototype of the cache instead of adding a key.)  On the
    code units below 128, two names are equal under [toLowerCase] exactly
    when they differ at most in the case of the letters A to Z. *)
Theorem caches_resolve_names_up_to_case (env : Env) (opts : Options) (w : World) :
  (forall rows,
     importQuestions env opts (FileJson (JArr rows)) w =
       after (cache_events env w ++ announced Question opts (length rows))
         (bind (questions_loop env opts rows) finish (loaded env w))
     /\ forall i acc w',
          same_caches w' (final (forIndex (stepQuestion env opts) i rows acc w')))
  /\ (forall k t, own (topicsCache (loaded env w)) !! k = Some t ->
        k = env_toLowerCase env (topic_name t) /\ In t (published_topics w))
  /\ (forall k g, own (tagsCache (loaded env w)) !! k = Some g ->
        k = env_toLowerCase env (tag_name g) /\ In g (published_tags w))
  /\ (forall n t, n <> ""%text -> proto_key env n = false ->
        In t (published_topics w) -> same_up_to_case env n (topic_name t) ->
        exists t',
          latest (topic_named env n) (published_topics w) = Some t'
          /\ findTopicByName env (JStr n) (loaded env w)
             = (Normal (Entity t'), loaded env w, [])
          /\ (forall before later, published_topics w = before ++ t :: later ->
                forallb (fun x => negb (topic_named env n x)) later = true ->
                t' = t))
  /\ (forall n g, proto_key env n = false ->
        In g (published_tags w) -> same_up_to_case env n (tag_name g) ->
        exists g',
          latest (tag_named env n) (published_tags w) = Some g'
          /\ (forall before later, published_tags w = before ++ g :: later ->
                forallb (fun x => negb (tag_named env n x)) later = true ->
                g' = g))
  /\ (forall names found,
        Forall2 (fun n g => proto_key env n = false
                            /\ latest (tag_named env n) (published_tags w) = Some g)
          names found ->
        findTagsByNames env (JArr (map JStr names)) (loaded env w)
        = (Normal (map Entity found), loaded env w, []))
  /\ (ascii_engine env ->
      forall a b, is_ascii a -> is_ascii b ->
        (same_up_to_case env a b <-> Forall2 same_letter a b)).
Proof.
  split; [|split; [|split; [|split; [|split; [|split]]]]].
  - intros rows. split; [apply importQuestions_array|].
    intros i acc w'. apply questions_loop_keeps_caches.
  - intros k t Hk. apply index_topics_keyed in Hk as [Hin ->]. auto.
  - intros k g Hk. apply index_tags_keyed in Hk as [Hin ->]. auto.
  - intros n t Hn Hproto Hin Hcase.
    assert (topic_named env n t = true) as Hm.
    { unfold topic_named. apply text_eqb_eq. symmetry. exact Hcase. }
    destruct (latest_found _ _ _ Hin Hm) as (t' & Hl).
    exists t'. split; [exact Hl|]. split.
    + apply findTopicByName_cached; [exact Hn|].
      simpl. rewrite (index_topics_latest _ _ _ Hproto). exact Hl.
    + intros before later E Hlater.
      fold (published_topics w) in Hl. rewrite E in Hl.
      rewrite (latest_last _ _ _ _ Hm Hlater) in Hl. congruence.
  - intros n g Hproto Hin Hcase.
    assert (tag_named env n g = true) as Hm.
    { unfold tag_named. apply text_eqb_eq. symmetry. exact Hcase. }
    destruct (latest_found _ _ _ Hin Hm) as (g' & Hl).
    exists g'. split; [exact Hl|].
    intros before later E Hlater.
    rewrite E in Hl. rewrite (latest_last _ _ _ _ Hm Hlater) in Hl. congruence.
  - intros names found Hall. unfold findTagsByNames.
    rewrite (collectTags_strings env _ _ (strings_are_strings names)).
    simpl. rewrite (cached_tags_entities env (loaded env w) names found);
      [reflexivity|].
    eapply Forall2_impl; [exact Hall|].
    intros n g [Hproto Hl]. simpl.
    rewrite (index_tags_latest _ _ _ Hproto). exact Hl.
  - intros Hengine a b Ha Hb. unfold same_up_to_case.
    rewrite (Hengine a Ha), (Hengine b Hb).
    apply asciiLowerCase_same_letters.
Qed.

Lemma caches_resolve_names_up_to_case_witness :
  findTopicByName memoryEnv (JStr "GeoGraphy") (loaded memoryEnv (boot geographyStore))
  = (Normal (Entity geographyTopic), loaded memoryEnv (boot geographyStore), [])
  /\ findTagsByNames memoryEnv (JArr [JStr "EUROPE"; JStr "europe"])
       (loaded memoryEnv (boot geographyStore))
     = (Normal [Entity europeTag; Entity europeTag],
        loaded memoryEnv (boot geographyStore), [])
  /\ (same_up_to_case memoryEnv "GeoGraphy" "Geography"
      <-> Forall2 same_letter "GeoGraphy"%text "Geography"%text).
Proof.
  destruct (caches_resolve_names_up_to_case memoryEnv defaultOptions
              (boot geographyStore)) as (_ & _ & _ & Ht & _ & Hg & Hcase).
  split; [|split].
  - destruct (Ht "GeoGraphy"%text geographyTopic) as (t' & _ & Hfind & Hsame);
      [discriminate | reflexivity | left; reflexivity | reflexivity |].
    rewrite <- (Hsame [] [] eq_refl eq_refl). exact Hfind.
  - apply (Hg ["EUROPE"; "europe"]%text [europeTag; europeTag]).
    repeat constructor.
  - apply Hcase.
    + intros s _. reflexivity.
    + unfold is_ascii. repeat constructor.
    + unfold is_ascii. repeat constructor.
Defined.

(** C8, as stated, fails on the empty name: the store has a published
    topic whose name is the empty string, the cache holds it under the key
    of that name, and the name differs from it in nothing; yet
    [findTopicByName] answers [null], because the script takes an empty
    name for no name. *)
Lemma empty_topic_name_is_not_resolved :
  own (topicsCache (loaded memoryEnv (boot namelessStore))) !! ""%text
  = Some namelessTopic
  /\ findTopicByName memoryEnv (JStr "") (loaded memoryEnv (boot namelessStore))
     = (Normal (Data JNull), loaded memoryEnv (boot namelessStore), []).
Proof. split; vm_compute; reflexivity. Qed.

(** ** References that do not resolve *)


















